(** * Outbound sales campaign (workflow.py): a shallow embedding

    The campaign runner of [src/workflow.py] drives a fixed pipeline of
    external services for every company URL and tallies the outcome.  The
    embedding keeps the program's structure: every task function with its
    [try]/[except] blocks, the per-company loop body with its [continue]
    exits, and the top-level script with its exit statuses.

    - A Python [str] is a list of code points ([list N]).
    - JSON documents returned by the services are values of [json].
    - Every call that leaves the process (HTTP, the language model, the
      spreadsheet and mail APIs, the HTML parser) is a [request]; an arbitrary
      [World] answers it from the history of the calls made so far, either
      with a reply or by raising.
    - Effects are threaded by a state-and-exception monad [M]; the state
      holds the call history, the two spreadsheet logs and the tally. *)

From Stdlib Require Import List ZArith NArith Lia Bool String Ascii.
Import ListNotations.

Set Implicit Arguments.
Local Open Scope list_scope.

(* ================================================================== *)
(** ** Python strings *)

Definition pystr := list N.

(** An ASCII literal of the source as a [pystr]. *)
Definition py (s : string) : pystr :=
  map N_of_ascii (list_ascii_of_string s).

Fixpoint pystr_eqb (a b : pystr) : bool :=
  match a, b with
  | [], [] => true
  | x :: a', y :: b' => N.eqb x y && pystr_eqb a' b'
  | _, _ => false
  end.

(** [bool(s)] for a string: non-empty. *)
Definition str_truthy (s : pystr) : bool :=
  match s with [] => false | _ :: _ => true end.

(** [str.isspace] on one code point (CPython's [_PyUnicode_IsWhitespace]). *)
Definition isspace (c : N) : bool :=
  ((9 <=? c) && (c <=? 13) || (28 <=? c) && (c <=? 32) ||
   (c =? 133) || (c =? 160) || (c =? 5760) ||
   (8192 <=? c) && (c <=? 8202) ||
   (c =? 8232) || (c =? 8233) || (c =? 8239) || (c =? 8287) ||
   (c =? 12288))%N.

Fixpoint drop_while (p : N -> bool) (s : pystr) : pystr :=
  match s with
  | [] => []
  | c :: s' => if p c then drop_while p s' else s
  end.

Definition lstrip (s : pystr) : pystr := drop_while isspace s.
Definition rstrip (s : pystr) : pystr := rev (drop_while isspace (rev s)).

(** [s.strip()] *)
Definition strip (s : pystr) : pystr := rstrip (lstrip s).

Fixpoint starts_with (p s : pystr) : bool :=
  match p, s with
  | [], _ => true
  | x :: p', y :: s' => N.eqb x y && starts_with p' s'
  | _ :: _, [] => false
  end.

(** The scan of [str.replace] for a non-empty [old]: left to right, a match
    is replaced and its remaining [skip] characters are passed over, so
    matches never overlap. *)
Fixpoint replace_scan (old new : pystr) (skip : nat) (s : pystr) : pystr :=
  match s with
  | [] => []
  | c :: s' =>
      match skip with
      | S k => replace_scan old new k s'
      | O =>
          if starts_with old s
          then new ++ replace_scan old new (List.length old - 1) s'
          else c :: replace_scan old new 0 s'
      end
  end.

(** [s.replace(old, new)]: every occurrence. *)
Definition str_replace (old new s : pystr) : pystr :=
  match old with
  | [] => new ++ flat_map (fun c => c :: new) s
  | _ :: _ => replace_scan old new 0 s
  end.

(** [s.removeprefix(p)]: what stripping a leading prefix only would be. *)
Definition removeprefix (p s : pystr) : pystr :=
  if starts_with p s then skipn (List.length p) s else s.

Definition str_mem (c : N) (s : pystr) : bool := existsb (N.eqb c) s.

(** The part of [s] before the first character satisfying [p], and the rest
    from that character on (empty when there is none). *)
Fixpoint span_until (p : N -> bool) (s : pystr) : pystr * pystr :=
  match s with
  | [] => ([], [])
  | c :: s' =>
      if p c then ([], s)
      else let (a, b) := span_until p s' in (c :: a, b)
  end.

(* ================================================================== *)
(** ** Exceptions and outcomes *)

(** The exception classes the program can meet.  All but the last two are
    subclasses of [Exception]; [KeyboardInterrupt] and [SystemExit] derive
    from [BaseException] only, so [except Exception] lets them through. *)
Inductive exn : Type :=
| HttpError            (* googleapiclient.errors.HttpError *)
| RequestException     (* requests: Timeout, ConnectionError, HTTPError *)
| JSONDecodeError
| ValueError
| UnboundLocalError
| AttributeError
| TypeError
| KeyError
| IndexError
| UnicodeEncodeError
| OtherException (tag : N)
| KeyboardInterrupt
| SystemExit (code : Z).

Definition is_Exception (e : exn) : bool :=
  match e with
  | KeyboardInterrupt | SystemExit _ => false
  | _ => true
  end.

Definition is_HttpError (e : exn) : bool :=
  match e with HttpError => true | _ => false end.

Definition is_KeyboardInterrupt (e : exn) : bool :=
  match e with KeyboardInterrupt => true | _ => false end.

Inductive outcome (A : Type) : Type :=
| Ret (a : A)
| Raise (e : exn).
Arguments Ret {A} a.
Arguments Raise {A} e.

(* ================================================================== *)
(** ** urllib.parse.urlparse

    The library function, as CPython's [urlsplit]/[urlparse] compute the
    [netloc] and [path] components.  Two checks of the library are not
    computed here ([_check_bracketed_host] on a bracketed host and the NFKC
    check of [_checknetloc] on a non-ASCII netloc); their verdict is the
    parameter [netloc_valid], consulted only for such netlocs. *)

Record ParseResult := { netloc : pystr; path : pystr }.

Definition is_alpha_ascii (c : N) : bool :=
  ((65 <=? c) && (c <=? 90) || (97 <=? c) && (c <=? 122))%N.
Definition is_digit_ascii (c : N) : bool := ((48 <=? c) && (c <=? 57))%N.
Definition scheme_char (c : N) : bool :=
  (is_alpha_ascii c || is_digit_ascii c ||
   (c =? 43) || (c =? 45) || (c =? 46))%N.
Definition lower_ascii (c : N) : N :=
  if ((65 <=? c) && (c <=? 90))%N then (c + 32)%N else c.
Definition is_ascii (c : N) : bool := (c <? 128)%N.

Definition uses_params : list pystr :=
  map py [""; "ftp"; "hdl"; "prospero"; "http"; "imap"; "https"; "shttp";
          "rtsp"; "rtspu"; "sip"; "sips"; "mms"; "sftp"; "tel"]%string.

(** [url.lstrip(C0 controls and space)], then every tab, CR and LF removed. *)
Definition url_clean (url : pystr) : pystr :=
  filter (fun c => negb ((c =? 9) || (c =? 10) || (c =? 13))%N)
         (drop_while (fun c => (c <=? 32)%N) url).

(** The scheme (lower-cased) and what follows its colon; no scheme when the
    text before the first colon is empty, does not start with an ASCII
    letter or holds a character outside [scheme_chars]. *)
Definition split_scheme (url : pystr) : pystr * pystr :=
  let (pre, rest) := span_until (N.eqb 58) url in
  match rest, pre with
  | _ :: after, c :: _ =>
      if is_alpha_ascii c && forallb scheme_char pre
      then (map lower_ascii pre, after)
      else ([], url)
  | _, _ => ([], url)
  end.

(** [_splitnetloc(url, 2)] after a leading [//]. *)
Definition split_netloc (url : pystr) : pystr * pystr :=
  if starts_with (py "//") url
  then span_until (fun c => (c =? 47) || (c =? 63) || (c =? 35))%N
                  (skipn 2 url)
  else ([], url).

Definition netloc_check (netloc_valid : pystr -> bool) (nl : pystr) : bool :=
  let lb := str_mem 91 nl in
  let rb := str_mem 93 nl in
  if xorb lb rb then false              (* "Invalid IPv6 URL" *)
  else if lb || negb (forallb is_ascii nl) then netloc_valid nl
  else true.

(** The index-free form of [_splitparams]: the path up to the first [;] of
    its last segment. *)
Fixpoint last_segment_split (s : pystr) : pystr * pystr :=
  match s with
  | [] => ([], [])
  | c :: s' =>
      let (a, b) := last_segment_split s' in
      if str_mem 47 (c :: s')
      then (if (c =? 47)%N && negb (str_mem 47 s') then ([], s)
            else (c :: a, b))
      else ([], s)
  end.

Definition split_params (url : pystr) : pystr :=
  let (dir, seg) := last_segment_split url in
  dir ++ fst (span_until (N.eqb 59) seg).

Definition urlparse (netloc_valid : pystr -> bool) (url : pystr)
  : outcome ParseResult :=
  let url := url_clean url in
  let (scheme, url) := split_scheme url in
  let (nl, url) := split_netloc url in
  if negb (netloc_check netloc_valid nl) then Raise ValueError
  else
    let url := fst (span_until (N.eqb 35) url) in
    let url := fst (span_until (N.eqb 63) url) in
    let url :=
      if existsb (pystr_eqb scheme) uses_params && str_mem 59 url
      then split_params url else url in
    Ret {| netloc := nl; path := url |}.

(* ================================================================== *)
(** ** JSON values and the Python operations applied to them *)

(** A number is kept by an integer: the program only tests it for zero
    and lets the runtime print it. *)
#[local] Set Warnings "-register-all".
Inductive json : Type :=
| JNull
| JBool (b : bool)
| JNum (z : Z)
| JStr (s : pystr)
| JArr (items : list json)
| JObj (fields : list (pystr * json)).

(** [bool(v)] *)
Definition truthy (v : json) : bool :=
  match v with
  | JNull => false
  | JBool b => b
  | JNum z => negb (Z.eqb z 0)
  | JStr s => str_truthy s
  | JArr l => match l with [] => false | _ :: _ => true end
  | JObj f => match f with [] => false | _ :: _ => true end
  end.

Fixpoint lookup (k : pystr) (fields : list (pystr * json)) : option json :=
  match fields with
  | [] => None
  | (k', v) :: rest => if pystr_eqb k k' then Some v else lookup k rest
  end.

(** [v.get(k, default)]: only a dict has the method. *)
Definition dict_get (v : json) (k : pystr) (default : json) : outcome json :=
  match v with
  | JObj f => Ret (match lookup k f with Some x => x | None => default end)
  | _ => Raise AttributeError
  end.

(** [v[k]] for a string key. *)
Definition subscript (v : json) (k : pystr) : outcome json :=
  match v with
  | JObj f => match lookup k f with Some x => Ret x | None => Raise KeyError end
  | _ => Raise TypeError
  end.

(** [len(v)] *)
Definition py_len (v : json) : outcome Z :=
  match v with
  | JStr s => Ret (Z.of_nat (List.length s))
  | JArr l => Ret (Z.of_nat (List.length l))
  | JObj f => Ret (Z.of_nat (List.length f))
  | _ => Raise TypeError
  end.

(** [v[0]] *)
Definition index0 (v : json) : outcome json :=
  match v with
  | JArr (x :: _) => Ret x
  | JStr (c :: _) => Ret (JStr [c])
  | JArr [] | JStr [] => Raise IndexError
  | JObj _ => Raise KeyError
  | _ => Raise TypeError
  end.

(** [v.strip()]: only a string has the method. *)
Definition json_strip (v : json) : outcome pystr :=
  match v with
  | JStr s => Ret (strip s)
  | _ => Raise AttributeError
  end.

(** [text.split()] on whitespace runs; [cur] is the word being read,
    reversed. *)
Fixpoint str_split (s cur : pystr) : list pystr :=
  match s with
  | [] => match cur with [] => [] | _ :: _ => [rev cur] end
  | c :: s' =>
      if isspace c
      then match cur with
           | [] => str_split s' []
           | _ :: _ => rev cur :: str_split s' []
           end
      else str_split s' (c :: cur)
  end.

Fixpoint str_join (sep : pystr) (ws : list pystr) : pystr :=
  match ws with
  | [] => []
  | [w] => w
  | w :: rest => w ++ sep ++ str_join sep rest
  end.

(** [message_text.encode('utf-8')] fails on a lone surrogate. *)
Definition utf8_encodable (s : pystr) : bool :=
  forallb (fun c => negb ((55296 <=? c) && (c <=? 57343))%N) s.

(* ================================================================== *)
(** ** Requests, the world that answers them, and the program state *)

(** What [requests.get] returns: [json_body] is what [.json()] gives. *)
Record response := {
  status_code : Z;
  text : pystr;
  json_body : option json     (* [None]: the body is not JSON *)
}.

(** [response.json()] *)
Definition response_json (r : response) : outcome json :=
  match json_body r with
  | Some v => Ret v
  | None => Raise JSONDecodeError
  end.

(** [response.raise_for_status()] *)
Definition raise_for_status (r : response) : outcome unit :=
  if (400 <=? status_code r)%Z && (status_code r <? 600)%Z
  then Raise RequestException else Ret tt.

(** The three fixed prompt templates with the values interpolated in them. *)
Inductive prompt : Type :=
| SummaryPrompt (text_content : pystr)
| BodyPrompt (summary : pystr) (first_name last_name : json)
| SubjectPrompt (summary : pystr) (organization first_name last_name : json).

(** The two append ranges, ['Success!A:C'] and ['Failures!A:A']. *)
Inductive sheet : Type := SuccessSheet | FailuresSheet.

Definition row := list json.

Inductive request : Type :=
| HttpGet (url : pystr)                 (* requests.get(url, timeout=10, ...) *)
| SoupText (html : pystr)               (* BeautifulSoup: decompose, get_text *)
| LlmInvoke (p : prompt)                (* llm.invoke(prompt).content *)
| HunterSearch (domain : pystr)         (* requests.get(hunter domain-search) *)
| SheetsGet                             (* values().get('Sheet1!A:A') *)
| SheetsAppend (sh : sheet) (r : row)   (* values().append(range, [r]) *)
| GmailCreateDraft (message_text : pystr).

Definition reply (r : request) : Type :=
  match r with
  | HttpGet _ => response
  | SoupText _ => pystr
  | LlmInvoke _ => json
  | HunterSearch _ => response
  | SheetsGet => option (list (list pystr))
  | SheetsAppend _ _ => unit
  | GmailCreateDraft _ => json
  end.

(** The components of the pipeline; entering one is recorded in the trace
    (ghost state: the program itself only logs). *)
Inductive component : Type :=
| ContentFetcher | TextExtractor | Summarizer | ContactFinder
| BodyComposer | SubjectComposer | DraftPublisher
| SuccessLogger | FailureLogger | InputReader.

Inductive event : Type :=
| Enter (c : component)
| External (r : request).

Record World := {
  (** the answer to a request, given everything that happened before *)
  answer : list event -> forall r : request, outcome (reply r);
  (** the library's verdict on a bracketed or non-ASCII netloc *)
  netloc_valid : pystr -> bool;
  (** [str(v)] for a number, list or dict *)
  py_repr : json -> pystr
}.

(** The [results] dict of the campaign runner. *)
Record tally := {
  processed : Z;
  successes : Z;
  failures : Z;
  errors : Z
}.

Definition zero_tally : tally :=
  {| processed := 0; successes := 0; failures := 0; errors := 0 |}.

Record state := {
  trace : list event;
  success_log : list row;      (* rows of the Success sheet *)
  failure_log : list row;      (* rows of the Failures sheet *)
  results : tally
}.

Definition initial_state : state :=
  {| trace := []; success_log := []; failure_log := [];
     results := zero_tally |}.

Definition record_event (e : event) (st : state) : state :=
  {| trace := trace st ++ [e];
     success_log := success_log st;
     failure_log := failure_log st;
     results := results st |}.

Definition append_row (sh : sheet) (r : row) (st : state) : state :=
  match sh with
  | SuccessSheet =>
      {| trace := trace st; success_log := success_log st ++ [r];
         failure_log := failure_log st; results := results st |}
  | FailuresSheet =>
      {| trace := trace st; success_log := success_log st;
         failure_log := failure_log st ++ [r]; results := results st |}
  end.

Definition set_results (t : tally) (st : state) : state :=
  {| trace := trace st; success_log := success_log st;
     failure_log := failure_log st; results := t |}.

(* ================================================================== *)
(** ** The state-and-exception monad *)

Definition M (A : Type) : Type := state -> outcome A * state.

Definition ret {A} (a : A) : M A := fun st => (Ret a, st).
Definition raise {A} (e : exn) : M A := fun st => (Raise e, st).

Definition bind {A B} (m : M A) (k : A -> M B) : M B :=
  fun st =>
    match m st with
    | (Ret a, st') => k a st'
    | (Raise e, st') => (Raise e, st')
    end.

Definition lift {A} (o : outcome A) : M A := fun st => (o, st).

Declare Scope py_scope.
Delimit Scope py_scope with py.
Notation "x <- c1 ;; c2" := (bind c1 (fun x => c2))
  (at level 61, c1 at next level, right associativity) : py_scope.
Notation "c1 ;; c2" := (bind c1 (fun _ => c2))
  (at level 61, right associativity) : py_scope.
Local Open Scope py_scope.

(** The first [except] clause whose class matches. *)
Fixpoint select_handler {A} (e : exn) (hs : list ((exn -> bool) * M A))
  : option (M A) :=
  match hs with
  | [] => None
  | (cls, h) :: rest => if cls e then Some h else select_handler e rest
  end.

(** [try: body  except cls1: h1  except cls2: h2 ...] *)
Definition try_except {A} (body : M A) (hs : list ((exn -> bool) * M A))
  : M A :=
  fun st =>
    match body st with
    | (Ret a, st') => (Ret a, st')
    | (Raise e, st') =>
        match select_handler e hs with
        | Some h => h st'
        | None => (Raise e, st')
        end
    end.

Definition enter (c : component) : M unit :=
  fun st => (Ret tt, record_event (Enter c) st).

Definition update_results (f : tally -> tally) : M unit :=
  fun st => (Ret tt, set_results (f (results st)) st).

Definition incr_processed (t : tally) : tally :=
  {| processed := processed t + 1; successes := successes t;
     failures := failures t; errors := errors t |}.
Definition incr_successes (t : tally) : tally :=
  {| processed := processed t; successes := successes t + 1;
     failures := failures t; errors := errors t |}.
Definition incr_failures (t : tally) : tally :=
  {| processed := processed t; successes := successes t;
     failures := failures t + 1; errors := errors t |}.
Definition incr_errors (t : tally) : tally :=
  {| processed := processed t; successes := successes t;
     failures := failures t; errors := errors t + 1 |}.

(* ================================================================== *)
(** ** The program *)

Section Program.

Variable W : World.

(** One request to the outside: the world answers from the history; the
    request is recorded, and an accepted append adds its row to the sheet. *)
Definition ext (r : request) : M (reply r) :=
  fun st =>
    let o := answer W (trace st) r in
    let st1 := record_event (External r) st in
    match r, o with
    | SheetsAppend sh rw, Ret _ => (o, append_row sh rw st1)
    | _, _ => (o, st1)
    end.

(** [str(v)] as an f-string interpolates it. *)
Definition py_str (v : json) : pystr :=
  match v with
  | JStr s => s
  | JNull => py "None"
  | JBool true => py "True"
  | JBool false => py "False"
  | _ => py_repr W v
  end.

(** *** Task functions *)

Definition fetch_website_content (url : pystr) : M (option pystr) :=
  enter ContentFetcher ;;
  try_except
    (response <- ext (HttpGet url) ;;
     lift (raise_for_status response) ;;
     ret (Some (text response)))
    [(is_Exception, ret None)].

Definition extract_text_from_html (html_content : pystr) : M pystr :=
  enter TextExtractor ;;
  try_except
    (text <- ext (SoupText html_content) ;;
     let text := str_join (py " ") (str_split text []) in
     ret (firstn 5000 text))
    [(is_Exception, ret [])].

Definition summarize_company (text_content : pystr) : M pystr :=
  enter Summarizer ;;
  try_except
    (content <- ext (LlmInvoke (SummaryPrompt text_content)) ;;
     summary <- lift (json_strip content) ;;
     ret summary)
    [(is_Exception, ret [])].

(** The dict that [find_contacts_hunter] returns. *)
Record contacts := {
  emails : json;
  organization : json;
  domain : pystr
}.

(** Lines 323-325: the base of the domain and the [replace]. *)
Definition domain_of (parsed : ParseResult) : pystr :=
  let domain :=
    if str_truthy (netloc parsed) then netloc parsed else path parsed in
  str_replace (py "www.") [] domain.

(** Lines 327-352, with [domain] bound. *)
Definition hunter_lookup (domain : pystr) : M contacts :=
  response <- ext (HunterSearch domain) ;;
  lift (raise_for_status response) ;;
  data <- lift (response_json response) ;;
  d <- lift (dict_get data (py "data") JNull) ;;
  if truthy d then
    es <- lift (dict_get d (py "emails") (JArr [])) ;;
    org <- lift (dict_get d (py "organization") (JStr [])) ;;
    lift (py_len es) ;;                     (* the f-string of the log line *)
    ret {| emails := es; organization := org; domain := domain |}
  else
    ret {| emails := JArr []; organization := JStr []; domain := domain |}.

(** Line 356, the [except] clause: it reads the local [domain], which is
    bound only once line 324 has run. *)
Definition hunter_fallback (domain : option pystr) : M contacts :=
  match domain with
  | Some d => ret {| emails := JArr []; organization := JStr []; domain := d |}
  | None => raise UnboundLocalError
  end.

Definition find_contacts_hunter (company_url : pystr) : M contacts :=
  enter ContactFinder ;;
  match urlparse (netloc_valid W) company_url with
  | Raise e =>
      try_except (raise e) [(is_Exception, hunter_fallback None)]
  | Ret parsed =>
      let domain := domain_of parsed in
      try_except (hunter_lookup domain)
        [(is_Exception, hunter_fallback (Some domain))]
  end.

Definition generate_email_body (summary : pystr) (first_name last_name : json)
  : M pystr :=
  enter BodyComposer ;;
  try_except
    (content <- ext (LlmInvoke (BodyPrompt summary first_name last_name)) ;;
     email_body <- lift (json_strip content) ;;
     ret email_body)
    [(is_Exception, ret [])].

Definition generate_email_subject (summary : pystr)
    (organization first_name last_name : json) : M pystr :=
  enter SubjectComposer ;;
  try_except
    (content <- ext (LlmInvoke
                       (SubjectPrompt summary organization
                                      first_name last_name)) ;;
     subject <- lift (json_strip content) ;;
     ret subject)
    [(is_Exception, ret [])].

(** *** Helper functions *)

Definition row0 (r : list pystr) : pystr := hd [] r.

(** [row and row[0].strip()] *)
Definition keep_row (r : list pystr) : bool :=
  match r with
  | [] => false
  | cell :: _ => str_truthy (strip cell)
  end.

Definition read_company_urls_from_sheets : M (list pystr) :=
  enter InputReader ;;
  try_except
    (result <- ext SheetsGet ;;
     let values := match result with Some v => v | None => [] end in
     match values with
     | [] => ret []
     | _ :: _ => ret (map row0 (filter keep_row (tl values)))
     end)
    [(is_HttpError, ret [])].

Definition crlf : pystr := [13; 10]%N.

Definition message_text (to_email : json) (subject body : pystr) : pystr :=
  py "To: " ++ py_str to_email ++ crlf ++
  py "Subject: " ++ subject ++ crlf ++
  crlf ++
  body.

Definition create_gmail_draft (to_email : json) (subject body : pystr)
  : M bool :=
  enter DraftPublisher ;;
  try_except
    (let msg := message_text to_email subject body in
     lift (if utf8_encodable msg then Ret tt else Raise UnicodeEncodeError) ;;
     draft <- ext (GmailCreateDraft msg) ;;
     lift (subscript draft (py "id")) ;;
     ret true)
    [(is_HttpError, ret false); (is_Exception, ret false)].

Definition success_row (company_url : pystr) (contact_email : json)
    (contact_name : pystr) : row :=
  [JStr company_url; contact_email; JStr contact_name].

Definition update_success_log (company_url : pystr) (contact_email : json)
    (contact_name : pystr) : M bool :=
  enter SuccessLogger ;;
  try_except
    (ext (SheetsAppend SuccessSheet
            (success_row company_url contact_email contact_name)) ;;
     ret true)
    [(is_HttpError, ret false)].

Definition log_failed_lookup (domain : pystr) : M bool :=
  enter FailureLogger ;;
  try_except
    (ext (SheetsAppend FailuresSheet [JStr domain]) ;;
     ret true)
    [(is_HttpError, ret false)].

(** *** The campaign runner *)

(** Lines 666-691: the branch taken when an email was found. *)
Definition found_branch (company_url summary : pystr) (emails organization : json)
  : M unit :=
  first_email <- lift (index0 emails) ;;
  contact_email <- lift (dict_get first_email (py "value") (JStr [])) ;;
  first_name <- lift (dict_get first_email (py "first_name") (JStr [])) ;;
  last_name <- lift (dict_get first_email (py "last_name") (JStr [])) ;;
  let contact_name := strip (py_str first_name ++ py " " ++ py_str last_name) in
  email_body <- generate_email_body summary first_name last_name ;;
  email_subject <-
    generate_email_subject summary organization first_name last_name ;;
  if str_truthy email_body && str_truthy email_subject then
    created <- create_gmail_draft contact_email email_subject email_body ;;
    if created : bool then
      update_success_log company_url contact_email contact_name ;;
      update_results incr_successes
    else
      update_results incr_errors
  else
    update_results incr_errors.

(** Lines 694-696: no email was found. *)
Definition not_found_branch (domain : pystr) : M unit :=
  log_failed_lookup domain ;;
  update_results incr_failures.

(** Lines 657-698: step 5 and the [processed] counter after it. *)
Definition contact_step (company_url summary : pystr) (hunter_data : contacts)
  : M unit :=
  let emails := emails hunter_data in
  let organization := organization hunter_data in
  let domain := domain hunter_data in
  found <-
    (if truthy emails
     then n <- lift (py_len emails) ;; ret (0 <? n)%Z
     else ret false) ;;
  (if found : bool
   then found_branch company_url summary emails organization
   else not_found_branch domain) ;;
  update_results incr_processed.

(** Lines 626-698, the body of the [try]; a [continue] ends it early. *)
Definition company_body (company_url : pystr) : M unit :=
  html_content <- fetch_website_content company_url ;;
  match html_content with
  | None | Some [] => update_results incr_errors
  | Some ((_ :: _) as html_content) =>
      text_content <- extract_text_from_html html_content ;;
      if negb (str_truthy text_content) then update_results incr_errors
      else
        summary <- summarize_company text_content ;;
        if negb (str_truthy summary) then update_results incr_errors
        else
          hunter_data <- find_contacts_hunter company_url ;;
          contact_step company_url summary hunter_data
  end.

(** One iteration of the loop (lines 622-703). *)
Definition process_company (company_url : pystr) : M unit :=
  try_except (company_body company_url)
    [(is_Exception, update_results incr_errors)].

Fixpoint for_each (company_urls : list pystr) : M unit :=
  match company_urls with
  | [] => ret tt
  | company_url :: rest => process_company company_url ;; for_each rest
  end.

Definition outbound_sales_workflow (company_urls : list pystr) : M tally :=
  update_results (fun _ => zero_tally) ;;
  for_each company_urls ;;
  fun st => (Ret (results st), st).

(** *** The script (lines 721-757) *)

Definition main : M unit :=
  try_except
    (company_urls <- read_company_urls_from_sheets ;;
     match company_urls with
     | [] => raise (SystemExit 1)
     | _ :: _ =>
         results <- outbound_sales_workflow company_urls ;;
         if (0 <? processed results)%Z &&
            (errors results <? Z.of_nat (List.length company_urls))%Z
         then raise (SystemExit 0)
         else raise (SystemExit 1)
     end)
    [(is_KeyboardInterrupt, raise (SystemExit 130));
     (is_Exception, raise (SystemExit 1))].

(** The status the process ends with. *)
Definition exit_status (o : outcome unit) : Z :=
  match o with
  | Raise (SystemExit code) => code
  | Raise KeyboardInterrupt => 130
  | Raise _ => 1
  | Ret _ => 0
  end.

Definition run_main (st : state) : Z := exit_status (fst (main st)).

End Program.

(* ================================================================== *)
(** ** Specification vocabulary *)

Local Open Scope Z_scope.

(** A world whose services fail only with ordinary exceptions: no request
    is cut short by [KeyboardInterrupt] or [SystemExit]. *)
Definition uninterrupted (W : World) : Prop :=
  forall history r e, answer W history r = Raise e -> is_Exception e = true.

(** The sum the final summary is checked against. *)
Definition classified (t : tally) : Z := successes t + failures t + errors t.

(** Exactly one of the three outcome counters went up by one. *)
Inductive one_outcome (t t' : tally) : Prop :=
| outcome_success :
    successes t' = successes t + 1 -> failures t' = failures t ->
    errors t' = errors t -> one_outcome t t'
| outcome_failure :
    successes t' = successes t -> failures t' = failures t + 1 ->
    errors t' = errors t -> one_outcome t t'
| outcome_error :
    successes t' = successes t -> failures t' = failures t ->
    errors t' = errors t + 1 -> one_outcome t t'.

(** The company is classified success / failure / error between two
    tallies: that counter and no other outcome counter moved. *)
Definition classified_success (t t' : tally) : Prop :=
  successes t' = successes t + 1 /\ failures t' = failures t /\
  errors t' = errors t.
Definition classified_failure (t t' : tally) : Prop :=
  successes t' = successes t /\ failures t' = failures t + 1 /\
  errors t' = errors t.
Definition classified_error (t t' : tally) : Prop :=
  successes t' = successes t /\ failures t' = failures t /\
  errors t' = errors t + 1.

(** A computation that leaves an observation [f] of the state alone. *)
Definition preserves {A X} (f : state -> X) (m : M A) : Prop :=
  forall st, f (snd (m st)) = f st.

(** The requests that write to a spreadsheet log. *)
Definition is_append (r : request) : bool :=
  match r with SheetsAppend _ _ => true | _ => false end.

(** The two spreadsheet logs. *)
Definition logs (st : state) : list row * list row :=
  (success_log st, failure_log st).

(** An outcome that is a value or an ordinary exception. *)
Definition ordinary {A} (o : outcome A) : Prop :=
  match o with
  | Raise e => is_Exception e = true
  | Ret _ => True
  end.

(** A computation that raises ordinary exceptions only. *)
Definition raises_only_Exception {A} (m : M A) : Prop :=
  forall st e st', m st = (Raise e, st') -> is_Exception e = true.

(** A computation that, when it returns, has classified the company once
    and moved [processed] as [P] allows, and when it raises has not touched
    the tally at all. *)
Definition classifies {A} (P : Z -> Z -> Prop) (m : M A) : Prop :=
  forall st,
    match m st with
    | (Ret _, st') =>
        one_outcome (results st) (results st') /\
        P (processed (results st)) (processed (results st'))
    | (Raise _, st') => results st' = results st
    end.

Definition same : Z -> Z -> Prop := fun p p' => p' = p.
Definition plus_one : Z -> Z -> Prop := fun p p' => p' = p + 1.
Definition at_most_one : Z -> Z -> Prop :=
  fun p p' => p' = p \/ p' = p + 1.

(** The company got as far as step 5: fetch, extraction and summary were
    all non-empty and the contact finder returned [hunter_data]. *)
Definition reaches_contact_step (W : World) (company_url : pystr)
    (st : state) (summary : pystr) (hunter_data : contacts) (st4 : state)
  : Prop :=
  exists html text_content st1 st2 st3,
    fetch_website_content W company_url st = (Ret (Some html), st1) /\
    str_truthy html = true /\
    extract_text_from_html W html st1 = (Ret text_content, st2) /\
    str_truthy text_content = true /\
    summarize_company W text_content st2 = (Ret summary, st3) /\
    str_truthy summary = true /\
    find_contacts_hunter W company_url st3 = (Ret hunter_data, st4).

(** Steps 1 to 4 run on a state: the summary, the finder's record and the
    state step 5 starts from, when the company gets that far. *)
Definition contact_step_inputs (W : World) (company_url : pystr) (st : state)
  : option (pystr * contacts * state) :=
  match fetch_website_content W company_url st with
  | (Ret (Some ((_ :: _) as html)), st1) =>
      match extract_text_from_html W html st1 with
      | (Ret ((_ :: _) as text_content), st2) =>
          match summarize_company W text_content st2 with
          | (Ret ((_ :: _) as summary), st3) =>
              match find_contacts_hunter W company_url st3 with
              | (Ret hunter_data, st4) => Some (summary, hunter_data, st4)
              | _ => None
              end
          | _ => None
          end
      | _ => None
      end
  | _ => None
  end.

(** [entry.get(k, '')] on the fields of an email entry. *)
Definition entry_field (fields : list (pystr * json)) (k : pystr) : json :=
  match lookup k fields with
  | Some v => v
  | None => JStr []
  end.

(** [contact_name] as line 670 builds it. *)
Definition contact_name_of (W : World) (fields : list (pystr * json))
  : pystr :=
  strip (py_str W (entry_field fields (py "first_name")) ++ py " " ++
         py_str W (entry_field fields (py "last_name"))).

(** The rows a request adds to its log, given the answer it got. *)
Definition rows_added (o : outcome unit) (r : row) : list row :=
  match o with
  | Ret _ => [r]
  | Raise _ => []
  end.

(** C7 as the spec words it: a lookup that found no email always puts
    the row [[d]] on the failure log and classifies the company failure. *)
Definition failure_row_always_logged : Prop :=
  forall W url st summary hd st4,
    reaches_contact_step W url st summary hd st4 ->
    emails hd = JArr [] ->
    exists st',
      process_company W url st = (Ret tt, st') /\
      failure_log st' = failure_log st ++ [[JStr (domain hd)]] /\
      classified_failure (results st) (results st').

(** C5 as the spec words it, for a published draft: exactly one row goes
    on the success log and the company is classified success. *)
Definition success_row_always_logged : Prop :=
  forall W url st summary hd st4 fields rest body st5 subject st6 st7,
    reaches_contact_step W url st summary hd st4 ->
    emails hd = JArr (JObj fields :: rest) ->
    let contact_email := entry_field fields (py "value") in
    let first_name := entry_field fields (py "first_name") in
    let last_name := entry_field fields (py "last_name") in
    generate_email_body W summary first_name last_name st4 =
      (Ret body, st5) ->
    str_truthy body = true ->
    generate_email_subject W summary (organization hd)
      first_name last_name st5 = (Ret subject, st6) ->
    str_truthy subject = true ->
    create_gmail_draft W contact_email subject body st6 = (Ret true, st7) ->
    exists st',
      process_company W url st = (Ret tt, st') /\
      success_log st' =
        success_log st ++
        [success_row url contact_email (contact_name_of W fields)] /\
      classified_success (results st) (results st').

(** An early step short-circuits the company (lines 630, 639, 648). *)
Inductive short_circuits (W : World) (company_url : pystr) (st : state)
  : state -> Prop :=
| no_content : forall html st1,
    fetch_website_content W company_url st = (Ret html, st1) ->
    match html with Some (_ :: _) => False | _ => True end ->
    short_circuits W company_url st st1
| no_text : forall html st1 st2,
    fetch_website_content W company_url st = (Ret (Some html), st1) ->
    str_truthy html = true ->
    extract_text_from_html W html st1 = (Ret [], st2) ->
    short_circuits W company_url st st2
| no_summary : forall html text_content st1 st2 st3,
    fetch_website_content W company_url st = (Ret (Some html), st1) ->
    str_truthy html = true ->
    extract_text_from_html W html st1 = (Ret text_content, st2) ->
    str_truthy text_content = true ->
    summarize_company W text_content st2 = (Ret [], st3) ->
    short_circuits W company_url st st3.

(** The fetch request fails: it raises, or answers with an error status. *)
Definition http_failure (o : outcome response) : bool :=
  match o with
  | Raise e => is_Exception e
  | Ret r => (400 <=? status_code r)%Z && (status_code r <? 600)%Z
  end.

(** A row the reader drops: an empty row, or one whose first cell is empty
    or whitespace only. *)
Definition blank_row (r : list pystr) : bool :=
  match r with
  | [] => true
  | cell :: _ => forallb isspace cell
  end.

(* ================================================================== *)
(** ** Scripted worlds for the worked examples *)

Record script := {
  on_fetch : outcome response;
  on_soup : outcome pystr;
  on_llm : outcome json;
  on_hunter : outcome response;
  on_sheets_get : outcome (option (list (list pystr)));
  on_append : outcome unit;
  on_draft : outcome json
}.

Definition scripted (s : script) : World :=
  {| answer := fun _ r =>
       match r return outcome (reply r) with
       | HttpGet _ => on_fetch s
       | SoupText _ => on_soup s
       | LlmInvoke _ => on_llm s
       | HunterSearch _ => on_hunter s
       | SheetsGet => on_sheets_get s
       | SheetsAppend _ _ => on_append s
       | GmailCreateDraft _ => on_draft s
       end;
     netloc_valid := fun _ => true;
     py_repr := fun _ => [] |}.

Definition ok_response (body : pystr) (j : option json) : response :=
  {| status_code := 200; text := body; json_body := j |}.

Definition one_email : json :=
  JObj [(py "value", JStr (py "a@x.com"));
        (py "first_name", JStr (py "A"));
        (py "last_name", JStr (py "B"))].

Definition hunter_found : json :=
  JObj [(py "data",
         JObj [(py "emails", JArr [one_email]);
               (py "organization", JStr (py "Example"))])].

Definition hunter_empty : json :=
  JObj [(py "data",
         JObj [(py "emails", JArr []);
               (py "organization", JStr (py "Example"))])].

Definition example_url : pystr := py "https://www.example.com/path".

(** Every service answers; the lookup finds one email. *)
Definition all_good : script :=
  {| on_fetch := Ret (ok_response (py "<body>Hello</body>") None);
     on_soup := Ret (py "Hello");
     on_llm := Ret (JStr (py "Partnership with Example"));
     on_hunter := Ret (ok_response [] (Some hunter_found));
     on_sheets_get := Ret (Some [[py "Company URL"]; [example_url]]);
     on_append := Ret tt;
     on_draft := Ret (JObj [(py "id", JStr (py "r1"))]) |}.

Definition with_fetch (o : outcome response) (s : script) : script :=
  {| on_fetch := o; on_soup := on_soup s; on_llm := on_llm s;
     on_hunter := on_hunter s; on_sheets_get := on_sheets_get s;
     on_append := on_append s; on_draft := on_draft s |}.
Definition with_hunter (o : outcome response) (s : script) : script :=
  {| on_fetch := on_fetch s; on_soup := on_soup s; on_llm := on_llm s;
     on_hunter := o; on_sheets_get := on_sheets_get s;
     on_append := on_append s; on_draft := on_draft s |}.
Definition with_append (o : outcome unit) (s : script) : script :=
  {| on_fetch := on_fetch s; on_soup := on_soup s; on_llm := on_llm s;
     on_hunter := on_hunter s; on_sheets_get := on_sheets_get s;
     on_append := o; on_draft := on_draft s |}.
Definition with_draft (o : outcome json) (s : script) : script :=
  {| on_fetch := on_fetch s; on_soup := on_soup s; on_llm := on_llm s;
     on_hunter := on_hunter s; on_sheets_get := on_sheets_get s;
     on_append := on_append s; on_draft := o |}.
Definition with_sheets_get (o : outcome (option (list (list pystr))))
    (s : script) : script :=
  {| on_fetch := on_fetch s; on_soup := on_soup s; on_llm := on_llm s;
     on_hunter := on_hunter s; on_sheets_get := o;
     on_append := on_append s; on_draft := on_draft s |}.

(** A cell with an unbalanced bracket, which [urlparse] refuses. *)
Definition unbalanced_url : pystr := py "http://[example.com".

(** A host name in which [www.] occurs, but not as a prefix. *)
Definition inner_www_url : pystr := py "https://mywww.com".

Definition world_ok : World := scripted all_good.
(** The input sheet has no header row: a URL on row 1, then a blank cell,
    an empty row, and a row of two cells. *)
Definition world_no_header : World :=
  scripted (with_sheets_get
              (Ret (Some [[example_url]; [py "  "]; [];
                          [py "https://example.org"; py "note"]]))
              all_good).
(** The page fetch times out. *)
Definition world_fetch_timeout : World :=
  scripted (with_fetch (Raise RequestException) all_good).
(** The lookup answers, with no email. *)
Definition world_no_email : World :=
  scripted (with_hunter (Ret (ok_response [] (Some hunter_empty))) all_good).
(** The spreadsheet API rejects every append with an [HttpError]. *)
Definition world_append_rejected : World :=
  scripted (with_append (Raise HttpError) all_good).
Definition world_no_email_append_rejected : World :=
  scripted (with_append (Raise HttpError)
              (with_hunter (Ret (ok_response [] (Some hunter_empty))) all_good)).
(** The mail API rejects the draft. *)
Definition world_draft_rejected : World :=
  scripted (with_draft (Raise HttpError) all_good).
(** The user interrupts the first page fetch. *)
Definition world_interrupted : World :=
  scripted (with_fetch (Raise KeyboardInterrupt) all_good).
(** The input sheet holds nothing but its header. *)
Definition world_header_only : World :=
  scripted (with_sheets_get (Ret (Some [[py "Company URL"]])) all_good).
(** Reading the input sheet fails outside the API's own error class. *)
Definition world_read_crash : World :=
  scripted (with_sheets_get (Raise (OtherException 0)) all_good).


(* ================================================================== *)
(** ** Further vocabulary: text shape *)

(** Empty, or with a non-space character at both ends. *)
Definition edge_clean (s : pystr) : Prop :=
  match s with
  | [] => True
  | c :: _ => isspace c = false /\ isspace (last s c) = false
  end.

(** [' '.join(text.split())] *)
Definition normalise (t : pystr) : pystr := str_join (py " ") (str_split t []).

(** Whitespace in [s] is the ASCII space only, never doubled, and never
    right after the position [prev_space] stands for. *)
Fixpoint tidy_after (prev_space : bool) (s : pystr) : bool :=
  match s with
  | [] => true
  | c :: s' =>
      if isspace c
      then (c =? 32)%N && negb prev_space && tidy_after true s'
      else tidy_after false s'
  end.

(** Single spaces between words, and no space in front. *)
Definition tidy (s : pystr) : bool := tidy_after true s.

Definition no_space (s : pystr) : bool := forallb (fun c => negb (isspace c)) s.

(** [old in s] *)
Fixpoint occurs (old s : pystr) : bool :=
  starts_with old s ||
  match s with
  | [] => false
  | _ :: s' => occurs old s'
  end.

(** Line 324: the network location, or the path when there is none. *)
Definition host_base (parsed : ParseResult) : pystr :=
  if str_truthy (netloc parsed) then netloc parsed else path parsed.

(* ================================================================== *)
(** ** Further scripted worlds *)

Definition with_llm (o : outcome json) (s : script) : script :=
  {| on_fetch := on_fetch s; on_soup := on_soup s; on_llm := o;
     on_hunter := on_hunter s; on_sheets_get := on_sheets_get s;
     on_append := on_append s; on_draft := on_draft s |}.
Definition with_soup (o : outcome pystr) (s : script) : script :=
  {| on_fetch := on_fetch s; on_soup := o; on_llm := on_llm s;
     on_hunter := on_hunter s; on_sheets_get := on_sheets_get s;
     on_append := on_append s; on_draft := on_draft s |}.

(** The model pads its answer with spaces and a line feed. *)
Definition padded_reply : script :=
  with_llm (Ret (JStr (py "  Acme builds rockets." ++ [10; 32]%N))) all_good.

(** The page text has runs of spaces, a tab and a line feed. *)
Definition ragged_page : script :=
  with_soup (Ret (py "  Hello " ++ [9; 32; 32]%N ++ py "big" ++ [10]%N ++
                  py "world  ")) all_good.

(** The spreadsheet client fails outside the API's own error class
    (a dropped connection, say) on every append. *)
Definition world_append_crash : World :=
  scripted (with_append (Raise (OtherException 7)) all_good).
Definition world_no_email_append_crash : World :=
  scripted (with_append (Raise (OtherException 7))
              (with_hunter (Ret (ok_response [] (Some hunter_empty)))
                 all_good)).

(* ================================================================== *)
(** ** Start-up: the environment and the Google credentials (lines 68-186)

    These functions run before the campaign, against the host rather than
    the services: environment variables, two files and the OAuth library.
    A [Host] answers them; what was done to it is kept as a list of
    [host_event]s. *)

Definition environ : Type := pystr -> option pystr.

(** [os.getenv(k)] used as a condition: set, and not the empty string. *)
Definition getenv_set (env : environ) (k : pystr) : bool :=
  match env k with
  | Some (_ :: _) => true
  | _ => false
  end.

Definition required_vars : list pystr :=
  map py ["OPENAI_API_KEY"; "HUNTER_API_KEY"; "GOOGLE_SPREADSHEET_ID"]%string.

Definition missing_vars (env : environ) : list pystr :=
  filter (fun var => negb (getenv_set env var)) required_vars.

Definition validate_environment (env : environ) : outcome unit :=
  match missing_vars env with
  | [] => Ret tt
  | _ :: _ => Raise (SystemExit 1)
  end.

(** What the code reads of a [Credentials] object. *)
Record credentials := {
  valid : bool;
  expired : bool;
  refresh_token : bool;      (* [creds.refresh_token] is set *)
  to_json : pystr
}.

Record Host := {
  getenv : environ;
  proc_version : outcome pystr;      (* open('/proc/version').read().lower() *)
  token_file_exists : bool;          (* os.path.exists('token.json') *)
  credentials_file_exists : bool;    (* os.path.exists('credentials.json') *)
  load_token : outcome credentials;  (* from_authorized_user_file *)
  refresh : credentials -> outcome credentials;   (* creds.refresh(Request()) *)
  client_secrets : outcome unit;     (* from_client_secrets_file *)
  run_local_server : bool -> outcome credentials; (* by [open_browser] *)
  write_token : pystr -> outcome unit
}.

Inductive host_event : Type :=
| LoadToken
| RefreshToken (c : credentials)
| LoadClientSecrets
| RunLocalServer (open_browser : bool)
| WriteToken (json : pystr).

Definition HM (A : Type) : Type :=
  list host_event -> outcome A * list host_event.

Definition hret {A} (a : A) : HM A := fun tr => (Ret a, tr).
Definition hraise {A} (e : exn) : HM A := fun tr => (Raise e, tr).
Definition hbind {A B} (m : HM A) (k : A -> HM B) : HM B :=
  fun tr =>
    match m tr with
    | (Ret a, tr') => k a tr'
    | (Raise e, tr') => (Raise e, tr')
    end.

(** One call to the host, recorded. *)
Definition hcall {A} (ev : host_event) (o : outcome A) : HM A :=
  fun tr => (o, tr ++ [ev]).

(** A computation that touches nothing on the host. *)
Definition hcall_free {A} (o : outcome A) : HM A := fun tr => (o, tr).

(** [try: body  except Exception: handler] *)
Definition htry {A} (body handler : HM A) : HM A :=
  fun tr =>
    match body tr with
    | (Raise e, tr') =>
        if is_Exception e then handler tr' else (Raise e, tr')
    | r => r
    end.

Declare Scope host_scope.
Delimit Scope host_scope with host.
Notation "x <~ c1 ;; c2" := (hbind c1 (fun x => c2))
  (at level 61, c1 at next level, right associativity) : host_scope.
Notation "c1 ;;; c2" := (hbind c1 (fun _ => c2))
  (at level 61, right associativity) : host_scope.

Section StartUp.

Variable H : Host.

(** The bare [except:] of line 97 takes everything. *)
Definition is_wsl : bool :=
  if getenv_set (getenv H) (py "WSL_DISTRO_NAME") ||
     getenv_set (getenv H) (py "WSLENV")
  then true
  else
    match proc_version H with
    | Ret text => occurs (py "microsoft") text
    | Raise _ => false
    end.

Definition is_headless : bool :=
  if getenv_set (getenv H) (py "DISPLAY") ||
     getenv_set (getenv H) (py "SSH_CONNECTION") ||
     getenv_set (getenv H) (py "CI")
  then false
  else true.

(** Lines 147-171: which way the local server is run. *)
Definition flow_opens_browser : bool :=
  if is_wsl then true
  else if is_headless then false
  else true.

Local Open Scope host_scope.

(** Lines 116-121. *)
Definition stored_credentials : HM (option credentials) :=
  if token_file_exists H then
    htry (c <~ hcall LoadToken (load_token H) ;; hret (Some c))
         (hret None)
  else hret None.

(** Lines 125-132. *)
Definition refreshed (creds : option credentials) : HM (option credentials) :=
  match creds with
  | Some c =>
      if expired c && refresh_token c then
        htry (c' <~ hcall (RefreshToken c) (refresh H c) ;; hret (Some c'))
             (hret None)
      else hret (Some c)
  | None => hret None
  end.

(** Lines 134-184. *)
Definition authorised (creds : option credentials) : HM (option credentials) :=
  match creds with
  | Some c => hret (Some c)
  | None =>
      if negb (credentials_file_exists H) then hraise (SystemExit 1)
      else
        htry
          (hcall LoadClientSecrets (client_secrets H) ;;;
           c <~ hcall (RunLocalServer flow_opens_browser)
                  (run_local_server H flow_opens_browser) ;;
           hcall (WriteToken (to_json c)) (write_token H (to_json c)) ;;;
           hret (Some c))
          (hraise (SystemExit 1))
  end.

Definition get_google_credentials : HM (option credentials) :=
  creds <~ stored_credentials ;;
  if match creds with
     | Some c => negb (valid c)
     | None => true
     end
  then
    creds <~ refreshed creds ;;
    authorised creds
  else hret creds.

(** Lines 196-200 of the module body: the environment is checked, then
    the credentials are fetched ([getenv] is the environment as
    [load_dotenv] left it). *)
Definition start_up : HM (option credentials) :=
  hcall_free (validate_environment (getenv H)) ;;;
  get_google_credentials.

End StartUp.

(** How a returned credential came about. *)
Inductive credential_origin (H : Host) (c : credentials) : Prop :=
| stored_valid :
    load_token H = Ret c -> valid c = true -> credential_origin H c
| stored_unrefreshable :
    load_token H = Ret c -> valid c = false ->
    expired c && refresh_token c = false -> credential_origin H c
| from_refresh : forall c0,
    load_token H = Ret c0 -> valid c0 = false ->
    expired c0 && refresh_token c0 = true ->
    refresh H c0 = Ret c -> credential_origin H c
| from_flow :
    run_local_server H (flow_opens_browser H) = Ret c ->
    write_token H (to_json c) = Ret tt ->
    credential_origin H c.

(** A host for the worked examples: nothing in the environment, a stored
    token that is neither valid nor expired, and no client secrets. *)
Definition stale_token : credentials :=
  {| valid := false; expired := false; refresh_token := true;
     to_json := py "{}" |}.

Definition fresh_token : credentials :=
  {| valid := true; expired := false; refresh_token := true;
     to_json := py "{}" |}.

Definition expired_token : credentials :=
  {| valid := false; expired := true; refresh_token := true;
     to_json := py "{}" |}.

Definition host_with (stored : outcome credentials) (secrets : bool) : Host :=
  {| getenv := fun _ => None;
     proc_version := Raise (OtherException 2);
     token_file_exists := true;
     credentials_file_exists := secrets;
     load_token := stored;
     refresh := fun _ => Raise RequestException;
     client_secrets := Ret tt;
     run_local_server := fun _ => Ret fresh_token;
     write_token := fun _ => Ret tt |}.

(** A host whose stored token is expired and whose refresh goes through,
    leaving a token that is still not valid. *)
Definition host_refreshing : Host :=
  {| getenv := fun _ => None;
     proc_version := Raise (OtherException 2);
     token_file_exists := true;
     credentials_file_exists := true;
     load_token := Ret expired_token;
     refresh := fun _ => Ret stale_token;
     client_secrets := Ret tt;
     run_local_server := fun _ => Ret fresh_token;
     write_token := fun _ => Ret tt |}.

(* ================================================================== *)
(** ** Further vocabulary: the ledger of one run *)

(** What the campaign leaves behind: the tally and the two logs. *)
Definition books : Type := tally * (list row * list row).

Definition books_of (st : state) : books := (results st, logs st).

Definition bump (processed_too : bool) (t : tally) : tally :=
  if processed_too then incr_processed t else t.

(** The effect of classifying one company: one outcome counter moves,
    [processed] moves with it when [p] says so, and a log gains a row only
    with its own counter, and one row at most. *)
Inductive effect (p : bool) : books -> books -> Prop :=
| effect_success : forall t sl fl sl',
    sl' = sl \/ (exists r, sl' = sl ++ [r]) ->
    effect p (t, (sl, fl)) (bump p (incr_successes t), (sl', fl))
| effect_failure : forall t sl fl fl',
    fl' = fl \/ (exists r, fl' = fl ++ [r]) ->
    effect p (t, (sl, fl)) (bump p (incr_failures t), (sl, fl'))
| effect_error : forall t sl fl,
    effect p (t, (sl, fl)) (bump p (incr_errors t), (sl, fl)).

(** One iteration of the loop: classified with [processed] counted, or an
    error that leaves [processed] alone. *)
Definition iteration_effect (b b' : books) : Prop :=
  effect true b b' \/ effect false b b' /\ fst b' = incr_errors (fst b).

(** A computation that has the effect [R] when it returns and none when it
    raises. *)
Definition acts {A} (R : books -> books -> Prop) (m : M A) : Prop :=
  forall st,
    match m st with
    | (Ret _, st') => R (books_of st) (books_of st')
    | (Raise _, st') => books_of st' = books_of st
    end.

(** The books after some iterations, against the books before: [n]
    companies classified; [processed] between the successes and failures
    and all outcomes; no more new rows on a log than its counter grew. *)
Definition balanced (n : nat) (b b' : books) : Prop :=
  let t := fst b in
  let t' := fst b' in
  let ds := successes t' - successes t in
  let df := failures t' - failures t in
  let de := errors t' - errors t in
  let dp := processed t' - processed t in
  0 <= ds /\ 0 <= df /\ 0 <= de /\
  ds + df + de = Z.of_nat n /\
  ds + df <= dp <= ds + df + de /\
  Z.of_nat (List.length (fst (snd b'))) <=
    Z.of_nat (List.length (fst (snd b))) + ds /\
  Z.of_nat (List.length (snd (snd b'))) <=
    Z.of_nat (List.length (snd (snd b))) + df /\
  (List.length (fst (snd b)) <= List.length (fst (snd b')))%nat /\
  (List.length (snd (snd b)) <= List.length (snd (snd b')))%nat.

(** A computation that raises nothing but ordinary exceptions and what the
    world itself raised at it. *)
Definition raises_from (W : World) {A} (m : M A) : Prop :=
  forall st e st',
    m st = (Raise e, st') ->
    is_Exception e = true \/ exists history r, answer W history r = Raise e.

(* ================================================================== *)
(** ** Further vocabulary: the message as a mail reader takes it apart *)

(** [s.partition(sep)] for a separator that occurs: the text before its
    first occurrence and the text after it. *)
Fixpoint split_on (sep s : pystr) : option (pystr * pystr) :=
  if starts_with sep s then Some ([], skipn (List.length sep) s)
  else
    match s with
    | [] => None
    | c :: s' =>
        match split_on sep s' with
        | Some (a, b) => Some (c :: a, b)
        | None => None
        end
    end.

(** No carriage return and no line feed. *)
Definition one_line (s : pystr) : bool :=
  forallb (fun c => negb ((c =? 13) || (c =? 10))%N) s.

(* ================================================================== *)
(** ** The raw field of a draft: UTF-8, then URL-safe base64
    (lines 499-500) *)

(** [chr(c).encode('utf-8')]; a surrogate has no encoding. *)
Definition utf8_char (c : N) : option (list N) :=
  (if c <? 128 then Some [c]
   else if c <? 2048 then Some [192 + c / 64; 128 + c mod 64]
   else if c <? 65536 then
     if (55296 <=? c) && (c <=? 57343) then None
     else Some [224 + c / 4096; 128 + (c / 64) mod 64; 128 + c mod 64]
   else if c <? 1114112 then
     Some [240 + c / 262144; 128 + (c / 4096) mod 64;
           128 + (c / 64) mod 64; 128 + c mod 64]
   else None)%N.

(** [s.encode('utf-8')] *)
Fixpoint utf8_encode (s : pystr) : option (list N) :=
  match s with
  | [] => Some []
  | c :: s' =>
      match utf8_char c, utf8_encode s' with
      | Some b, Some bs => Some (b ++ bs)
      | _, _ => None
      end
  end.

(** The alphabet of [base64.urlsafe_b64encode]: A-Z, a-z, 0-9, [-], [_]. *)
Definition b64_char (n : N) : N :=
  (if n <? 26 then 65 + n
   else if n <? 52 then 71 + n
   else if n <? 62 then n - 4
   else if n =? 62 then 45
   else 95)%N.

(** [base64.urlsafe_b64encode(bs)], padded with [=]. *)
Fixpoint urlsafe_b64encode (bs : list N) : pystr :=
  (match bs with
   | [] => []
   | [a] => [b64_char (a / 4); b64_char ((a mod 4) * 16); 61; 61]
   | [a; b] =>
       [b64_char (a / 4); b64_char ((a mod 4) * 16 + b / 16);
        b64_char ((b mod 16) * 4); 61]
   | a :: b :: c :: rest =>
       b64_char (a / 4) :: b64_char ((a mod 4) * 16 + b / 16) ::
       b64_char ((b mod 16) * 4 + c / 64) :: b64_char (c mod 64) ::
       urlsafe_b64encode rest
   end)%N.

(** Lines 499-500: the [raw] field for a message text. *)
Definition encoded_message (message_text : pystr) : outcome pystr :=
  match utf8_encode message_text with
  | Some message_bytes => Ret (urlsafe_b64encode message_bytes)
  | None => Raise UnicodeEncodeError
  end.

(** The readers the two encodings are written for: strict decoders, as
    the receiving side applies them. *)
Definition continuation (b : N) : bool := ((128 <=? b) && (b <? 192))%N.

Fixpoint utf8_decode (bs : list N) : option pystr :=
  (match bs with
   | [] => Some []
   | b0 :: r0 =>
       if b0 <? 128 then option_map (cons b0) (utf8_decode r0)
       else if b0 <? 224 then
         match r0 with
         | b1 :: r1 =>
             let c := (b0 - 192) * 64 + (b1 - 128) in
             if (192 <=? b0) && continuation b1 && (128 <=? c)
             then option_map (cons c) (utf8_decode r1)
             else None
         | _ => None
         end
       else if b0 <? 240 then
         match r0 with
         | b1 :: b2 :: r2 =>
             let c := (b0 - 224) * 4096 + (b1 - 128) * 64 + (b2 - 128) in
             if continuation b1 && continuation b2 && (2048 <=? c) &&
                negb ((55296 <=? c) && (c <=? 57343))
             then option_map (cons c) (utf8_decode r2)
             else None
         | _ => None
         end
       else
         match r0 with
         | b1 :: b2 :: b3 :: r3 =>
             let c := (b0 - 240) * 262144 + (b1 - 128) * 4096 +
                      (b2 - 128) * 64 + (b3 - 128) in
             if (b0 <? 248) && continuation b1 && continuation b2 &&
                continuation b3 && (65536 <=? c) && (c <? 1114112)
             then option_map (cons c) (utf8_decode r3)
             else None
         | _ => None
         end
   end)%N.

Definition b64_value (c : N) : option N :=
  (if (65 <=? c) && (c <=? 90) then Some (c - 65)
   else if (97 <=? c) && (c <=? 122) then Some (c - 71)
   else if (48 <=? c) && (c <=? 57) then Some (c + 4)
   else if c =? 45 then Some 62
   else if c =? 95 then Some 63
   else None)%N.

Fixpoint urlsafe_b64decode (cs : pystr) : option (list N) :=
  (match cs with
   | [] => Some []
   | c1 :: c2 :: c3 :: c4 :: rest =>
       match b64_value c1, b64_value c2 with
       | Some v1, Some v2 =>
           if (c3 =? 61) && (c4 =? 61) then
             match rest with
             | [] => Some [v1 * 4 + v2 / 16]
             | _ :: _ => None
             end
           else
             match b64_value c3 with
             | Some v3 =>
                 if c4 =? 61 then
                   match rest with
                   | [] => Some [v1 * 4 + v2 / 16; (v2 mod 16) * 16 + v3 / 4]
                   | _ :: _ => None
                   end
                 else
                   match b64_value c4 with
                   | Some v4 =>
                       option_map
                         (fun r => v1 * 4 + v2 / 16 ::
                                   (v2 mod 16) * 16 + v3 / 4 ::
                                   (v3 mod 4) * 64 + v4 :: r)
                         (urlsafe_b64decode rest)
                   | None => None
                   end
             | None => None
             end
       | _, _ => None
       end
   | _ => None
   end)%N.

Definition is_byte (b : N) : Prop := (b < 256)%N.

(** A code point of a Python string. *)
Definition is_code_point (c : N) : Prop := (c < 1114112)%N.

(** The characters a URL-safe base64 text is made of. *)
Definition url_safe (c : N) : bool :=
  (is_alpha_ascii c || is_digit_ascii c ||
   (c =? 45) || (c =? 95) || (c =? 61))%N.

(* ================================================================== *)
(** ** Strings: facts about [strip] and the row filter *)

Lemma drop_while_nil (p : N -> bool) (s : pystr) :
  drop_while p s = [] <-> forallb p s = true.
Proof.
  induction s as [|c s IH]; simpl.
  - tauto.
  - destruct (p c); simpl; [exact IH | split; discriminate].
Qed.

Lemma drop_while_head (p : N -> bool) (s : pystr) c t :
  drop_while p s = c :: t -> p c = false.
Proof.
  induction s as [|x s IH]; simpl; [discriminate|].
  destruct (p x) eqn:E; [exact IH|].
  intros H; injection H as -> _; exact E.
Qed.

Lemma str_truthy_rev (s : pystr) : str_truthy (rev s) = str_truthy s.
Proof.
  destruct s as [|c s]; [reflexivity|]. simpl.
  destruct (rev s); reflexivity.
Qed.

(** A string survives [strip] exactly when it has a non-space character. *)
Lemma strip_truthy (s : pystr) :
  str_truthy (strip s) = negb (forallb isspace s).
Proof.
  unfold strip, rstrip, lstrip.
  rewrite str_truthy_rev.
  destruct (forallb isspace s) eqn:E.
  - apply drop_while_nil in E. rewrite E. reflexivity.
  - destruct (drop_while isspace s) as [|c t] eqn:D.
    + apply drop_while_nil in D. congruence.
    + apply drop_while_head in D.
      destruct (drop_while isspace (rev (c :: t))) eqn:R; [|reflexivity].
      apply drop_while_nil in R. simpl in R.
      rewrite forallb_app in R. simpl in R. rewrite D in R.
      rewrite andb_false_r in R. discriminate.
Qed.

Lemma keep_row_blank (r : list pystr) : keep_row r = negb (blank_row r).
Proof. destruct r as [|cell r]; [reflexivity|]. apply strip_truthy. Qed.

(* ================================================================== *)
(** ** The monad: frame rules *)

Section Frames.

Context {X : Type} (f : state -> X).

Lemma preserves_ret A (a : A) : preserves f (ret a).
Proof. intro st; reflexivity. Qed.

Lemma preserves_raise A (e : exn) : preserves f (@raise A e).
Proof. intro st; reflexivity. Qed.

Lemma preserves_lift A (o : outcome A) : preserves f (lift o).
Proof. intro st; reflexivity. Qed.

Lemma preserves_bind A B (m : M A) (k : A -> M B) :
  preserves f m -> (forall a, preserves f (k a)) -> preserves f (bind m k).
Proof.
  intros Hm Hk st. unfold bind.
  specialize (Hm st). destruct (m st) as [[a|e] st1]; simpl in *.
  - rewrite (Hk a st1). exact Hm.
  - exact Hm.
Qed.

Lemma preserves_try A (body : M A) (hs : list ((exn -> bool) * M A)) :
  preserves f body ->
  Forall (fun h => preserves f (snd h)) hs ->
  preserves f (try_except body hs).
Proof.
  intros Hb Hh st. unfold try_except.
  specialize (Hb st). destruct (body st) as [[a|e] st1]; simpl in *.
  - exact Hb.
  - destruct (select_handler e hs) as [h|] eqn:S; [|exact Hb].
    assert (Hp : preserves f h).
    { clear -S Hh. induction Hh as [|[cls h'] hs' H0 _ IH]; simpl in S.
      - discriminate.
      - destruct (cls e); [injection S as <-; exact H0 | exact (IH S)]. }
    rewrite (Hp st1). exact Hb.
Qed.

Hypothesis f_ignores_trace : forall e st, f (record_event e st) = f st.

Lemma preserves_enter (c : component) : preserves f (enter c).
Proof. intro st. apply f_ignores_trace. Qed.

End Frames.

Lemma results_ignores_trace e st : results (record_event e st) = results st.
Proof. reflexivity. Qed.

Lemma logs_ignores_trace e st : logs (record_event e st) = logs st.
Proof. reflexivity. Qed.

(** No request touches the tally. *)
Lemma preserves_results_ext W (r : request) : preserves results (ext W r).
Proof.
  intro st. unfold ext.
  destruct r; try reflexivity.
  destruct (answer W (trace st) (SheetsAppend sh r)); [destruct sh|];
    reflexivity.
Qed.

(** Only an append request can change a log. *)
Lemma preserves_logs_ext W (r : request) :
  is_append r = false -> preserves logs (ext W r).
Proof.
  intros H st. unfold ext. destruct r; try reflexivity. discriminate.
Qed.

Lemma preserves_logs_update (g : tally -> tally) :
  preserves logs (update_results g).
Proof. intro st; reflexivity. Qed.

Ltac frame_step :=
  match goal with
  | |- preserves _ (bind _ _) => apply preserves_bind; [|intro]
  | |- preserves _ (try_except _ _) => apply preserves_try
  | |- preserves _ (ret _) => apply preserves_ret
  | |- preserves _ (raise _) => apply preserves_raise
  | |- preserves _ (lift _) => apply preserves_lift
  | |- preserves results (enter _) =>
      apply preserves_enter; exact results_ignores_trace
  | |- preserves logs (enter _) =>
      apply preserves_enter; exact logs_ignores_trace
  | |- preserves results (ext _ _) => apply preserves_results_ext
  | |- preserves logs (ext _ _) => apply preserves_logs_ext; reflexivity
  | |- preserves logs (update_results _) => apply preserves_logs_update
  | |- Forall _ _ => constructor
  | |- preserves _ (snd _) => simpl snd
  | |- preserves _ (if ?b then _ else _) => destruct b
  | |- preserves _ (match ?x with _ => _ end) => destruct x
  | |- preserves _ (let _ := _ in _) => cbv zeta
  end.

Ltac frame := repeat frame_step.

Section TaskFrames.

Context {X : Type} (f : state -> X) (W : World).
Hypothesis f_trace : forall e st, f (record_event e st) = f st.
Hypothesis f_ext : forall r, is_append r = false -> preserves f (ext W r).

Ltac task :=
  repeat first
    [ apply preserves_enter; exact f_trace
    | apply f_ext; reflexivity
    | frame_step ].

Lemma preserves_fetch url : preserves f (fetch_website_content W url).
Proof. unfold fetch_website_content. task. Qed.

Lemma preserves_extract html : preserves f (extract_text_from_html W html).
Proof. unfold extract_text_from_html. task. Qed.

Lemma preserves_summarize t : preserves f (summarize_company W t).
Proof. unfold summarize_company. task. Qed.

Lemma preserves_find_contacts url : preserves f (find_contacts_hunter W url).
Proof. unfold find_contacts_hunter, hunter_lookup, hunter_fallback. task. Qed.

Lemma preserves_body s a b : preserves f (generate_email_body W s a b).
Proof. unfold generate_email_body. task. Qed.

Lemma preserves_subject s o a b :
  preserves f (generate_email_subject W s o a b).
Proof. unfold generate_email_subject. task. Qed.

Lemma preserves_draft t s b : preserves f (create_gmail_draft W t s b).
Proof. unfold create_gmail_draft. task. Qed.

End TaskFrames.

Lemma preserves_results_success_log W u e n :
  preserves results (update_success_log W u e n).
Proof. unfold update_success_log. frame. Qed.

Lemma preserves_results_failed_lookup W d :
  preserves results (log_failed_lookup W d).
Proof. unfold log_failed_lookup. frame. Qed.

(* ================================================================== *)
(** ** The monad: which exceptions can escape *)

Lemma only_Exception_ret A (a : A) : raises_only_Exception (ret a).
Proof. intros st e st' H; discriminate. Qed.

Lemma only_Exception_raise A (e : exn) :
  is_Exception e = true -> raises_only_Exception (@raise A e).
Proof. intros He st e' st' H; injection H as <- _; exact He. Qed.

Lemma only_Exception_lift A (o : outcome A) :
  (forall e, o = Raise e -> is_Exception e = true) ->
  raises_only_Exception (lift o).
Proof. intros Ho st e st' H. injection H as H _. exact (Ho e H). Qed.

Lemma only_Exception_enter c : raises_only_Exception (enter c).
Proof. intros st e st' H; discriminate. Qed.

Lemma only_Exception_update g : raises_only_Exception (update_results g).
Proof. intros st e st' H; discriminate. Qed.

Lemma only_Exception_bind A B (m : M A) (k : A -> M B) :
  raises_only_Exception m -> (forall a, raises_only_Exception (k a)) ->
  raises_only_Exception (bind m k).
Proof.
  intros Hm Hk st e st' H. unfold bind in H.
  destruct (m st) as [[a|e1] st1] eqn:E.
  - exact (Hk a st1 e st' H).
  - injection H as <- <-. exact (Hm st e1 st1 E).
Qed.

Lemma only_Exception_try A (body : M A) hs :
  raises_only_Exception body ->
  Forall (fun h => raises_only_Exception (snd h)) hs ->
  raises_only_Exception (try_except body hs).
Proof.
  intros Hb Hh st e st' H. unfold try_except in H.
  destruct (body st) as [[a|e1] st1] eqn:E; [discriminate|].
  destruct (select_handler e1 hs) as [h|] eqn:S.
  - assert (Hp : raises_only_Exception h).
    { clear -S Hh. induction Hh as [|[cls h'] hs' H0 _ IH]; simpl in S.
      - discriminate.
      - destruct (cls e1); [injection S as <-; exact H0 | exact (IH S)]. }
    exact (Hp st1 e st' H).
  - injection H as <- <-. exact (Hb st e1 st1 E).
Qed.

Lemma only_Exception_ext W r :
  uninterrupted W -> raises_only_Exception (ext W r).
Proof.
  intros HW st e st' H. unfold ext in H.
  apply (HW (trace st) r e).
  destruct r; try (injection H as H _; exact H).
  destruct (answer W (trace st) (SheetsAppend sh r)); [discriminate|].
  injection H as H _. rewrite H. reflexivity.
Qed.

(** The Python primitives raise ordinary exceptions only. *)
Lemma only_Exception_ordinary A (o : outcome A) :
  ordinary o -> raises_only_Exception (lift o).
Proof. intros H. apply only_Exception_lift. intros e ->. exact H. Qed.

Lemma ordinary_raise_for_status r : ordinary (raise_for_status r).
Proof.
  unfold raise_for_status.
  destruct (_ && _); simpl; auto.
Qed.

Lemma ordinary_response_json r : ordinary (response_json r).
Proof. unfold response_json. destruct (json_body r); simpl; auto. Qed.

Lemma ordinary_dict_get v k d : ordinary (dict_get v k d).
Proof. destruct v; simpl; auto. Qed.

Lemma ordinary_subscript v k : ordinary (subscript v k).
Proof. destruct v; simpl; auto. destruct (lookup k fields); simpl; auto. Qed.

Lemma ordinary_py_len v : ordinary (py_len v).
Proof. destruct v; simpl; auto. Qed.

Lemma ordinary_index0 v : ordinary (index0 v).
Proof. destruct v as [| | |[|]|[|]|]; simpl; auto. Qed.

Lemma ordinary_json_strip v : ordinary (json_strip v).
Proof. destruct v; simpl; auto. Qed.

Lemma ordinary_encodable (b : bool) :
  ordinary (if b then Ret tt else Raise UnicodeEncodeError).
Proof. destruct b; simpl; auto. Qed.

Create HintDb ordinary.
#[local] Hint Resolve ordinary_raise_for_status ordinary_response_json
  ordinary_dict_get ordinary_subscript ordinary_py_len ordinary_index0
  ordinary_json_strip ordinary_encodable : ordinary.

(** The parser fails in one way only. *)
Lemma urlparse_raises nv url e : urlparse nv url = Raise e -> e = ValueError.
Proof.
  unfold urlparse.
  destruct (split_scheme (url_clean url)) as [scheme rest].
  destruct (split_netloc rest) as [nl rest'].
  destruct (negb (netloc_check nv nl)); [|discriminate].
  intros H; injection H as <-; reflexivity.
Qed.

Section Escapes.

Variable W : World.
Hypothesis HW : uninterrupted W.

Ltac escape :=
  repeat first
    [ apply only_Exception_bind; [|intro]
    | apply only_Exception_try
    | apply only_Exception_ret
    | apply only_Exception_enter
    | apply only_Exception_update
    | apply only_Exception_ext; exact HW
    | apply only_Exception_raise; reflexivity
    | apply only_Exception_ordinary; solve [auto with ordinary]
    | match goal with
      | |- Forall _ _ => constructor
      | |- raises_only_Exception (snd _) => simpl snd
      | |- raises_only_Exception (if ?b then _ else _) => destruct b
      | |- raises_only_Exception (let _ := _ in _) => cbv zeta
      end ].

Lemma fetch_escapes url :
  raises_only_Exception (fetch_website_content W url).
Proof. unfold fetch_website_content. escape. Qed.

Lemma extract_escapes html :
  raises_only_Exception (extract_text_from_html W html).
Proof. unfold extract_text_from_html. escape. Qed.

Lemma summarize_escapes t :
  raises_only_Exception (summarize_company W t).
Proof. unfold summarize_company. escape. Qed.

Lemma find_contacts_escapes url :
  raises_only_Exception (find_contacts_hunter W url).
Proof.
  unfold find_contacts_hunter, hunter_lookup, hunter_fallback.
  destruct (urlparse (netloc_valid W) url) as [parsed|e] eqn:E.
  - escape.
  - apply urlparse_raises in E. subst e. escape.
Qed.

Lemma compose_body_escapes s a b :
  raises_only_Exception (generate_email_body W s a b).
Proof. unfold generate_email_body. escape. Qed.

Lemma compose_subject_escapes s o a b :
  raises_only_Exception (generate_email_subject W s o a b).
Proof. unfold generate_email_subject. escape. Qed.

Lemma draft_escapes t s b : raises_only_Exception (create_gmail_draft W t s b).
Proof. unfold create_gmail_draft. escape. Qed.

Lemma success_log_escapes u e n :
  raises_only_Exception (update_success_log W u e n).
Proof. unfold update_success_log. escape. Qed.

Lemma failed_lookup_escapes d :
  raises_only_Exception (log_failed_lookup W d).
Proof. unfold log_failed_lookup. escape. Qed.

Lemma contact_step_escapes u s hd :
  raises_only_Exception (contact_step W u s hd).
Proof.
  unfold contact_step, found_branch, not_found_branch.
  repeat first
    [ apply compose_body_escapes | apply compose_subject_escapes
    | apply draft_escapes | apply success_log_escapes
    | apply failed_lookup_escapes
    | apply only_Exception_bind; [|intro]
    | apply only_Exception_ret
    | apply only_Exception_update
    | apply only_Exception_ordinary; solve [auto with ordinary]
    | match goal with
      | |- raises_only_Exception (if ?b then _ else _) => destruct b
      | |- raises_only_Exception (let _ := _ in _) => cbv zeta
      end ].
Qed.

Lemma company_body_escapes url : raises_only_Exception (company_body W url).
Proof.
  unfold company_body.
  apply only_Exception_bind; [apply fetch_escapes|intros [[|c html]|]];
    try apply only_Exception_update.
  apply only_Exception_bind; [apply extract_escapes|intros t].
  destruct (negb (str_truthy t)); [apply only_Exception_update|].
  apply only_Exception_bind; [apply summarize_escapes|intros s].
  destruct (negb (str_truthy s)); [apply only_Exception_update|].
  apply only_Exception_bind; [apply find_contacts_escapes|intros hd].
  apply contact_step_escapes.
Qed.

(** Without interruption every iteration of the loop returns. *)
Lemma process_company_returns url st :
  exists st', process_company W url st = (Ret tt, st').
Proof.
  unfold process_company, try_except.
  destruct (company_body W url st) as [[[]|e] st1] eqn:E.
  - eexists; reflexivity.
  - simpl. rewrite (@company_body_escapes url _ _ _ E). eexists; reflexivity.
Qed.

End Escapes.

(* ================================================================== *)
(** ** Classification: how the loop body moves the tally *)

Lemma classifies_bind_frame A B P (m : M A) (k : A -> M B) :
  preserves results m -> (forall a, classifies P (k a)) ->
  classifies P (bind m k).
Proof.
  intros Hm Hk st. unfold bind.
  specialize (Hm st). destruct (m st) as [[a|e] st1]; simpl in Hm.
  - specialize (Hk a st1). destruct (k a st1) as [[b|e] st2];
      rewrite <- Hm; exact Hk.
  - exact Hm.
Qed.

Lemma classifies_weaken A (P Q : Z -> Z -> Prop) (m : M A) :
  (forall p p', P p p' -> Q p p') -> classifies P m -> classifies Q m.
Proof.
  intros HPQ Hm st. specialize (Hm st).
  destruct (m st) as [[a|e] st1]; [|exact Hm].
  destruct Hm as [H1 H2]. split; [exact H1 | exact (HPQ _ _ H2)].
Qed.

Lemma classifies_errors : classifies same (update_results incr_errors).
Proof. intro st. simpl. split; [apply outcome_error|]; reflexivity. Qed.

Lemma classifies_successes : classifies same (update_results incr_successes).
Proof. intro st. simpl. split; [apply outcome_success|]; reflexivity. Qed.

Lemma classifies_failures : classifies same (update_results incr_failures).
Proof. intro st. simpl. split; [apply outcome_failure|]; reflexivity. Qed.

(** Line 698: [processed] goes up once the branch has classified. *)
Lemma classifies_then_processed A (m : M A) :
  classifies same m ->
  classifies plus_one (bind m (fun _ => update_results incr_processed)).
Proof.
  intros Hm st. unfold bind. specialize (Hm st).
  destruct (m st) as [[a|e] st1]; [|exact Hm]. simpl.
  destruct Hm as [H1 H2]. unfold same in H2. unfold plus_one.
  split; [|lia].
  destruct H1; [apply outcome_success|apply outcome_failure
               |apply outcome_error]; assumption.
Qed.

Section Classification.

Variable W : World.

Ltac tally_frame :=
  first
    [ apply preserves_fetch | apply preserves_extract
    | apply preserves_summarize | apply preserves_find_contacts
    | apply preserves_body | apply preserves_subject
    | apply preserves_draft ];
  [ exact results_ignores_trace | intros; apply preserves_results_ext ].

Ltac classify :=
  repeat first
    [ apply classifies_errors | apply classifies_successes
    | apply classifies_failures
    | apply classifies_bind_frame;
      [ first [ tally_frame | apply preserves_results_success_log
              | apply preserves_results_failed_lookup | solve [frame] ]
      | intro ]
    | match goal with
      | |- classifies _ (if ?b then _ else _) => destruct b
      | |- classifies _ (let _ := _ in _) => cbv zeta
      end ].

Lemma found_branch_classifies u s es org :
  classifies same (found_branch W u s es org).
Proof. unfold found_branch. classify. Qed.

Lemma not_found_branch_classifies d :
  classifies same (not_found_branch W d).
Proof. unfold not_found_branch. classify. Qed.

Lemma contact_step_classifies u s hd :
  classifies plus_one (contact_step W u s hd).
Proof.
  unfold contact_step. cbv zeta.
  apply classifies_bind_frame; [solve [frame]|intros found].
  apply classifies_then_processed.
  destruct found;
    [apply found_branch_classifies | apply not_found_branch_classifies].
Qed.

Lemma company_body_classifies url :
  classifies at_most_one (company_body W url).
Proof.
  assert (E : classifies at_most_one (update_results incr_errors)).
  { apply classifies_weaken with (P := same);
      [intros p p' H; left; exact H | apply classifies_errors]. }
  unfold company_body.
  apply classifies_bind_frame; [tally_frame|intros [[|c html]|]];
    try exact E.
  apply classifies_bind_frame; [tally_frame|intros t].
  destruct (negb (str_truthy t)); [exact E|].
  apply classifies_bind_frame; [tally_frame|intros s].
  destruct (negb (str_truthy s)); [exact E|].
  apply classifies_bind_frame; [tally_frame|intros hd].
  apply classifies_weaken with (P := plus_one);
    [intros p p' H; right; exact H | apply contact_step_classifies].
Qed.

(** One iteration: it returns with one outcome counter moved, or it is cut
    short by something that is not an [Exception]. *)
Lemma process_company_classifies url st :
  match process_company W url st with
  | (Ret _, st') =>
      one_outcome (results st) (results st') /\
      at_most_one (processed (results st)) (processed (results st'))
  | (Raise e, st') => is_Exception e = false
  end.
Proof.
  unfold process_company, try_except.
  pose proof (company_body_classifies url st) as H.
  destruct (company_body W url st) as [[[]|e] st1]; [exact H|].
  simpl. destruct (is_Exception e) eqn:E; [|exact E].
  simpl. rewrite H. split; [apply outcome_error|left]; reflexivity.
Qed.

End Classification.

(* ================================================================== *)
(** ** The loop *)

Lemma run_preserves A X (f : state -> X) (m : M A) st o st' :
  preserves f m -> m st = (o, st') -> f st' = f st.
Proof. intros H E. specialize (H st). rewrite E in H. exact H. Qed.

Lemma one_outcome_classified t t' :
  one_outcome t t' -> classified t' = classified t + 1.
Proof. unfold classified. intros []; lia. Qed.

(** Nothing ordinary escapes the loop. *)
Lemma for_each_interrupt_only W urls :
  forall st e st',
    for_each W urls st = (Raise e, st') -> is_Exception e = false.
Proof.
  induction urls as [|url rest IH]; intros st e st' H; simpl in H.
  - discriminate.
  - unfold bind in H.
    pose proof (process_company_classifies W url st) as P.
    destruct (process_company W url st) as [[[]|e1] st1].
    + exact (IH _ _ _ H).
    + injection H as <- _. exact P.
Qed.

(** Without interruption the loop returns, and the outcome counters have
    grown by the number of URLs. *)
Lemma for_each_counts W (HW : uninterrupted W) urls :
  forall st, exists st',
    for_each W urls st = (Ret tt, st') /\
    classified (results st') =
      classified (results st) + Z.of_nat (List.length urls).
Proof.
  induction urls as [|url rest IH]; intros st.
  - exists st. simpl. split; [reflexivity|lia].
  - destruct (process_company_returns HW url st) as [st1 E1].
    pose proof (process_company_classifies W url st) as P.
    rewrite E1 in P. destruct P as [P _].
    apply one_outcome_classified in P.
    destruct (IH st1) as [st2 [E2 C2]].
    exists st2. split.
    + simpl. unfold bind. rewrite E1. exact E2.
    + rewrite C2, P. simpl List.length. lia.
Qed.

Lemma short_circuits_body W url st st1 :
  short_circuits W url st st1 ->
  company_body W url st =
    (Ret tt, set_results (incr_errors (results st1)) st1) /\
  results st1 = results st.
Proof.
  assert (R : forall A (m : M A) s o s',
             preserves results m -> m s = (o, s') -> results s' = results s)
    by (intros; eapply run_preserves; eassumption).
  assert (Ft := fun u => @preserves_fetch _ results W results_ignores_trace
                          (fun r _ => preserves_results_ext W r) u).
  assert (Fe := fun h => @preserves_extract _ results W results_ignores_trace
                          (fun r _ => preserves_results_ext W r) h).
  assert (Fs := fun t => @preserves_summarize _ results W results_ignores_trace
                          (fun r _ => preserves_results_ext W r) t).
  intros [html s1 H1 Hh | html s1 s2 H1 Hh H2
         | html t s1 s2 s3 H1 Hh H2 Ht H3];
    unfold company_body, bind; rewrite H1.
  - split; [|exact (R _ _ _ _ _ (Ft url) H1)].
    destruct html as [[|c h]|]; try reflexivity. contradiction.
  - destruct html as [|c h]; [discriminate|]. rewrite H2. simpl.
    split; [reflexivity|].
    rewrite (R _ _ _ _ _ (Fe _) H2). exact (R _ _ _ _ _ (Ft url) H1).
  - destruct html as [|c h]; [discriminate|]. rewrite H2.
    rewrite Ht. simpl. rewrite H3. simpl.
    split; [reflexivity|].
    rewrite (R _ _ _ _ _ (Fs _) H3), (R _ _ _ _ _ (Fe _) H2).
    exact (R _ _ _ _ _ (Ft url) H1).
Qed.

(* ================================================================== *)
(** ** The campaign tally *)

(** C1.  For every list of company URLs, in a run that is not interrupted,
    every iteration of the loop returns having moved exactly one of
    [successes], [failures], [errors] by one, and the workflow returns a
    tally in which the three add up to the number of URLs given. *)
Theorem every_url_counted_once W (HW : uninterrupted W) urls st :
  (forall url st1, exists st2,
      process_company W url st1 = (Ret tt, st2) /\
      one_outcome (results st1) (results st2)) /\
  exists t st',
    outbound_sales_workflow W urls st = (Ret t, st') /\
    successes t + failures t + errors t = Z.of_nat (List.length urls).
Proof.
  split.
  - intros url st1.
    destruct (process_company_returns HW url st1) as [st2 E].
    exists st2. split; [exact E|].
    pose proof (process_company_classifies W url st1) as P.
    rewrite E in P. apply P.
  - destruct (for_each_counts HW urls (set_results zero_tally st))
      as [st' [E C]].
    exists (results st'), st'. split.
    + unfold outbound_sales_workflow, bind, update_results. rewrite E.
      reflexivity.
    + exact C.
Qed.

Lemma every_url_counted_once_witness :
  uninterrupted world_fetch_timeout /\
  exists t st',
    outbound_sales_workflow world_fetch_timeout
      [example_url; py "https://example.org"] initial_state = (Ret t, st') /\
    successes t + failures t + errors t = 2.
Proof.
  assert (H : uninterrupted world_fetch_timeout).
  { intros h r e. destruct r; simpl; intros E; try discriminate.
    injection E as <-. reflexivity. }
  split; [exact H|].
  exact (proj2 (every_url_counted_once H
                  [example_url; py "https://example.org"] initial_state)).
Defined.

(** C2.  An exception raised anywhere in the body of one company's
    iteration is caught by that iteration: the iteration returns, [errors]
    alone has gone up by one, and the loop goes on with the next company
    from there.  Nothing that is an [Exception] ever ends the loop. *)
Theorem exception_caught_per_company W url rest st e st1 :
  company_body W url st = (Raise e, st1) ->
  is_Exception e = true ->
  let st2 := set_results (incr_errors (results st)) st1 in
  process_company W url st = (Ret tt, st2) /\
  classified_error (results st) (results st2) /\
  processed (results st2) = processed (results st) /\
  for_each W (url :: rest) st = for_each W rest st2 /\
  (forall urls st0 e' st',
      for_each W urls st0 = (Raise e', st') -> is_Exception e' = false).
Proof.
  intros Hb He st2.
  assert (R : results st1 = results st).
  { pose proof (company_body_classifies W url st) as C.
    rewrite Hb in C. exact C. }
  assert (P : process_company W url st = (Ret tt, st2)).
  { unfold process_company, try_except. rewrite Hb. simpl. rewrite He.
    unfold update_results. rewrite R. reflexivity. }
  split; [exact P|]. split; [|split; [|split]].
  - unfold classified_error. simpl. auto.
  - reflexivity.
  - simpl. unfold bind. rewrite P. reflexivity.
  - intros urls. apply for_each_interrupt_only.
Qed.

Lemma exception_caught_per_company_witness :
  let st1 := snd (company_body world_ok unbalanced_url initial_state) in
  let st2 := set_results (incr_errors zero_tally) st1 in
  process_company world_ok unbalanced_url initial_state = (Ret tt, st2) /\
  for_each world_ok [unbalanced_url; example_url] initial_state =
  for_each world_ok [example_url] st2.
Proof.
  pose proof (@exception_caught_per_company world_ok unbalanced_url
                [example_url] initial_state UnboundLocalError
                (snd (company_body world_ok unbalanced_url initial_state))
                eq_refl eq_refl) as H.
  split; [exact (proj1 H) | exact (proj1 (proj2 (proj2 (proj2 H))))].
Defined.

(** C8.  When the page fetch fails (the request raises, a timeout say, or
    answers with an error status) the fetcher returns [None], the company
    is classified error, and the iteration ends there: the only events of
    the iteration are the fetcher being entered and its one request, so no
    other component runs, and neither log changes. *)
Theorem fetch_failure_ends_iteration W url st :
  http_failure
    (answer W (trace st ++ [Enter ContentFetcher]) (HttpGet url)) = true ->
  let st' :=
    {| trace := trace st ++ [Enter ContentFetcher; External (HttpGet url)];
       success_log := success_log st;
       failure_log := failure_log st;
       results := incr_errors (results st) |} in
  fst (fetch_website_content W url st) = Ret None /\
  process_company W url st = (Ret tt, st') /\
  classified_error (results st) (results st') /\
  processed (results st') = processed (results st).
Proof.
  intros H st'.
  assert (F : fetch_website_content W url st =
              (Ret None,
               record_event (External (HttpGet url))
                 (record_event (Enter ContentFetcher) st))).
  { unfold fetch_website_content, bind, enter, try_except, ext. simpl.
    destruct (answer W (trace st ++ [Enter ContentFetcher]) (HttpGet url))
      as [r|e]; simpl in H.
    - unfold lift, raise_for_status. rewrite H. reflexivity.
    - simpl. rewrite H. reflexivity. }
  split; [rewrite F; reflexivity|]. split; [|split].
  - unfold process_company, try_except, company_body, bind. rewrite F.
    unfold update_results, set_results, record_event. simpl.
    subst st'. rewrite <- app_assoc. reflexivity.
  - unfold classified_error. simpl. auto.
  - reflexivity.
Qed.

Lemma fetch_failure_ends_iteration_witness :
  process_company world_fetch_timeout example_url initial_state =
  (Ret tt,
   {| trace := [Enter ContentFetcher; External (HttpGet example_url)];
      success_log := []; failure_log := [];
      results := incr_errors zero_tally |}).
Proof.
  exact (proj1 (proj2 (@fetch_failure_ends_iteration world_fetch_timeout
                         example_url initial_state eq_refl))).
Defined.

(** C9.  [processed] goes up only at the end of an iteration body that ran
    to completion: it stays put when the body raises and when an early
    step short-circuits the company to an error, and otherwise moves by at
    most one.  So [processed = successes + failures + errors] does not hold
    in general: there is a run that ends with [processed] strictly below
    the sum. *)
Theorem processed_only_on_completed_paths :
  (forall W url st e st1,
      company_body W url st = (Raise e, st1) ->
      processed (results (snd (process_company W url st))) =
      processed (results st)) /\
  (forall W url st st1,
      short_circuits W url st st1 ->
      process_company W url st =
        (Ret tt, set_results (incr_errors (results st)) st1) /\
      processed (results (snd (process_company W url st))) =
      processed (results st)) /\
  (forall W url st st',
      process_company W url st = (Ret tt, st') ->
      at_most_one (processed (results st)) (processed (results st'))) /\
  (exists W urls t st',
      outbound_sales_workflow W urls initial_state = (Ret t, st') /\
      processed t < successes t + failures t + errors t).
Proof.
  split; [|split; [|split]].
  - intros W url st e st1 Hb.
    pose proof (company_body_classifies W url st) as C.
    rewrite Hb in C.
    unfold process_company, try_except. rewrite Hb. simpl.
    destruct (is_Exception e); simpl; rewrite C; reflexivity.
  - intros W url st st1 H.
    destruct (short_circuits_body H) as [Hb R].
    assert (P : process_company W url st =
                (Ret tt, set_results (incr_errors (results st)) st1)).
    { unfold process_company, try_except. rewrite Hb, R. reflexivity. }
    split; [exact P|]. rewrite P. reflexivity.
  - intros W url st st' H.
    pose proof (process_company_classifies W url st) as C.
    rewrite H in C. apply C.
  - exists world_fetch_timeout, [example_url].
    eexists. eexists. split; [reflexivity|]. vm_compute. reflexivity.
Qed.

Lemma processed_only_on_completed_paths_witness :
  process_company world_ok unbalanced_url initial_state =
    (Ret tt,
     set_results (incr_errors zero_tally)
       (snd (company_body world_ok unbalanced_url initial_state))) /\
  processed
    (results (snd (process_company world_ok unbalanced_url initial_state))) =
  0.
Proof.
  split; [reflexivity|].
  exact (proj1 processed_only_on_completed_paths world_ok unbalanced_url
           initial_state UnboundLocalError _ eq_refl).
Defined.

(* ================================================================== *)
(** ** The input reader *)

(** C10.  When the spreadsheet answers with rows, the reader returns, in
    sheet order, the first cells of the rows after the first that are not
    blank (a blank row is empty, or has an empty or whitespace-only first
    cell).  The first row is dropped whatever it holds. *)
Theorem reader_skips_first_row_and_blanks W st values :
  answer W (trace st ++ [Enter InputReader]) SheetsGet = Ret (Some values) ->
  fst (read_company_urls_from_sheets W st) =
  Ret (map row0 (filter (fun r => negb (blank_row r)) (tl values))).
Proof.
  intros H.
  unfold read_company_urls_from_sheets, bind, enter, try_except, ext.
  simpl. rewrite H. simpl.
  destruct values as [|first rest]; [reflexivity|]. simpl.
  rewrite (filter_ext keep_row (fun r => negb (blank_row r)) keep_row_blank).
  reflexivity.
Qed.

Lemma reader_skips_first_row_and_blanks_witness :
  fst (read_company_urls_from_sheets world_no_header initial_state) =
  Ret [py "https://example.org"].
Proof.
  exact (@reader_skips_first_row_and_blanks world_no_header initial_state
           _ eq_refl).
Defined.

(* ================================================================== *)
(** ** The contact finder *)

(** The spec's example: the domain of [https://www.example.com/path]. *)
Example domain_of_example nv :
  exists parsed,
    urlparse nv example_url = Ret parsed /\
    netloc parsed = py "www.example.com" /\
    domain_of parsed = py "example.com".
Proof. eexists. repeat split. Qed.

(** With no network location the path stands in for it. *)
Example domain_of_bare_host nv :
  exists parsed,
    urlparse nv (py "www.example.com") = Ret parsed /\
    netloc parsed = [] /\
    domain_of parsed = py "example.com".
Proof. eexists. repeat split. Qed.

(** Whatever the lookup does, the finder makes one request, for the domain
    computed from the parsed URL. *)
Lemma find_contacts_request W url parsed st :
  urlparse (netloc_valid W) url = Ret parsed ->
  snd (find_contacts_hunter W url st) =
  record_event (External (HunterSearch (domain_of parsed)))
    (record_event (Enter ContactFinder) st).
Proof.
  intros H.
  unfold find_contacts_hunter, bind, enter. rewrite H.
  unfold try_except, hunter_lookup, bind, ext, lift. simpl.
  destruct (answer W (trace st ++ [Enter ContactFinder])
              (HunterSearch (domain_of parsed))) as [r|e]; simpl.
  - destruct (raise_for_status r) as [[]|e1]; simpl;
      [|destruct (is_Exception e1); reflexivity].
    destruct (response_json r) as [data|e1]; simpl;
      [|destruct (is_Exception e1); reflexivity].
    destruct (dict_get data (py "data") JNull) as [d|e1]; simpl;
      [|destruct (is_Exception e1); reflexivity].
    destruct (truthy d); simpl; [|reflexivity].
    destruct (dict_get d (py "emails") (JArr [])) as [es|e1]; simpl;
      [|destruct (is_Exception e1); reflexivity].
    destruct (dict_get d (py "organization") (JStr [])) as [org|e1]; simpl;
      [|destruct (is_Exception e1); reflexivity].
    destruct (py_len es) as [n|e1]; simpl;
      [reflexivity|destruct (is_Exception e1); reflexivity].
  - destruct (is_Exception e); reflexivity.
Qed.

(** When the finder returns, the URL parsed and the record carries the
    domain computed from it. *)
Lemma find_contacts_domain W url st hd st' :
  find_contacts_hunter W url st = (Ret hd, st') ->
  exists parsed,
    urlparse (netloc_valid W) url = Ret parsed /\
    domain hd = domain_of parsed.
Proof.
  unfold find_contacts_hunter, bind, enter.
  destruct (urlparse (netloc_valid W) url) as [parsed|e] eqn:E.
  - intros H. exists parsed. split; [reflexivity|].
    revert H.
    unfold try_except, hunter_lookup, bind, ext, lift. simpl.
    assert (F : forall e1 s,
               match
                 (if is_Exception e1
                  then Some (hunter_fallback (Some (domain_of parsed)))
                  else None)
               with
               | Some h => h s
               | None => (Raise e1, s)
               end = (Ret hd, st') ->
               domain hd = domain_of parsed).
    { intros e1 s. destruct (is_Exception e1); simpl; intros H;
        [injection H as <- _; reflexivity | discriminate]. }
    destruct (answer W (trace st ++ [Enter ContactFinder])
                (HunterSearch (domain_of parsed))) as [r|e]; simpl;
      [|apply F].
    destruct (raise_for_status r) as [[]|e1]; simpl; [|apply F].
    destruct (response_json r) as [data|e1]; simpl; [|apply F].
    destruct (dict_get data (py "data") JNull) as [d|e1]; simpl; [|apply F].
    destruct (truthy d); simpl;
      [|intros H; injection H as <- _; reflexivity].
    destruct (dict_get d (py "emails") (JArr [])) as [es|e1]; simpl;
      [|apply F].
    destruct (dict_get d (py "organization") (JStr [])) as [org|e1]; simpl;
      [|apply F].
    destruct (py_len es) as [n|e1]; simpl; [|apply F].
    intros H; injection H as <- _; reflexivity.
  - unfold try_except, raise. simpl.
    destruct (is_Exception e); simpl; discriminate.
Qed.

(** C3 (the code at a host name with an inner [www.]).  For
    [https://mywww.com] the parsed network location is [mywww.com];
    [replace] removes the [www.] inside it, so the finder queries the
    directory for [mycom], where removing a leading prefix only would have
    left [mywww.com] as it is. *)
Theorem replace_removes_inner_www W st :
  exists parsed,
    urlparse (netloc_valid W) inner_www_url = Ret parsed /\
    netloc parsed = py "mywww.com" /\
    domain_of parsed = py "mycom" /\
    removeprefix (py "www.") (netloc parsed) = py "mywww.com" /\
    snd (find_contacts_hunter W inner_www_url st) =
    record_event (External (HunterSearch (py "mycom")))
      (record_event (Enter ContactFinder) st).
Proof.
  eexists. split; [reflexivity|]. repeat split.
  exact (@find_contacts_request W inner_www_url _ st eq_refl).
Qed.

(** C4 (the code when the URL does not parse).  If [urlparse] raises, the
    [except] clause of the finder reads [domain] before line 324 has bound
    it: the finder raises [UnboundLocalError] instead of returning a
    record, and no lookup is made. *)
Theorem finder_raises_when_url_unparsable W url st e :
  urlparse (netloc_valid W) url = Raise e ->
  find_contacts_hunter W url st =
  (Raise UnboundLocalError, record_event (Enter ContactFinder) st).
Proof.
  intros H. rewrite (urlparse_raises _ _ H) in H.
  unfold find_contacts_hunter, bind, enter. rewrite H. reflexivity.
Qed.

Lemma finder_raises_when_url_unparsable_witness :
  find_contacts_hunter world_ok unbalanced_url initial_state =
  (Raise UnboundLocalError, record_event (Enter ContactFinder) initial_state).
Proof.
  exact (@finder_raises_when_url_unparsable world_ok unbalanced_url
           initial_state ValueError eq_refl).
Defined.

(** The part of C4 that the code keeps: once the URL has parsed, a lookup
    that fails with an exception, or that has no data, yields a record
    with no email and the derived domain. *)
Lemma finder_falls_back_with_domain W url parsed st :
  urlparse (netloc_valid W) url = Ret parsed ->
  let o := answer W (trace st ++ [Enter ContactFinder])
             (HunterSearch (domain_of parsed)) in
  ((exists e, o = Raise e /\ is_Exception e = true) \/
   (exists r data,
       o = Ret r /\ raise_for_status r = Ret tt /\
       response_json r = Ret (JObj data) /\
       match lookup (py "data") data with
       | Some d => truthy d = false
       | None => True
       end)) ->
  fst (find_contacts_hunter W url st) =
  Ret {| emails := JArr []; organization := JStr [];
         domain := domain_of parsed |}.
Proof.
  intros H o Ho.
  unfold find_contacts_hunter, bind, enter. rewrite H.
  unfold try_except, hunter_lookup, bind, ext, lift. simpl. fold o.
  destruct Ho as [[e [-> He]]|[r [data [-> [H1 [H2 H3]]]]]]; simpl.
  - rewrite He. reflexivity.
  - rewrite H1, H2. simpl.
    destruct (lookup (py "data") data) as [d|]; simpl;
      [rewrite H3|]; reflexivity.
Qed.

(* ================================================================== *)
(** ** Step 5: the contact branch *)

Section ContactBranch.

Variable W : World.

Lemma logs_kept A (m : M A) st o st' :
  preserves logs m -> m st = (o, st') ->
  success_log st' = success_log st /\ failure_log st' = failure_log st.
Proof.
  intros H E. pose proof (@run_preserves _ _ _ _ _ _ _ H E) as L.
  unfold logs in L. injection L as -> ->. auto.
Qed.

Let logs_ext : forall r, is_append r = false -> preserves logs (ext W r) :=
  preserves_logs_ext W.
Let tally_ext : forall r, is_append r = false -> preserves results (ext W r) :=
  fun r _ => preserves_results_ext W r.

(** A company that reaches step 5 has so far changed neither the tally nor
    a log, and the rest of its iteration is step 5. *)
Lemma reaches_contact_step_run url st summary hd st4 :
  reaches_contact_step W url st summary hd st4 ->
  company_body W url st = contact_step W url summary hd st4 /\
  results st4 = results st /\
  success_log st4 = success_log st /\ failure_log st4 = failure_log st.
Proof.
  intros (html & t & st1 & st2 & st3 & H1 & Hh & H2 & Ht & H3 & Hs & H4).
  split.
  - unfold company_body, bind. rewrite H1.
    destruct html as [|c h]; [discriminate|].
    rewrite H2, Ht. simpl. rewrite H3, Hs. simpl. rewrite H4. reflexivity.
  - split.
    + rewrite (@run_preserves _ _ _ _ _ _ _ (@preserves_find_contacts _ results W results_ignores_trace tally_ext url) H4).
      rewrite (@run_preserves _ _ _ _ _ _ _ (@preserves_summarize _ results W results_ignores_trace tally_ext t) H3).
      rewrite (@run_preserves _ _ _ _ _ _ _ (@preserves_extract _ results W results_ignores_trace tally_ext html) H2).
      exact (@run_preserves _ _ _ _ _ _ _ (@preserves_fetch _ results W results_ignores_trace tally_ext url) H1).
    + destruct (@logs_kept _ _ _ _ _ (@preserves_find_contacts _ logs W logs_ignores_trace logs_ext url) H4) as [-> ->].
      destruct (@logs_kept _ _ _ _ _ (@preserves_summarize _ logs W logs_ignores_trace logs_ext t) H3) as [-> ->].
      destruct (@logs_kept _ _ _ _ _ (@preserves_extract _ logs W logs_ignores_trace logs_ext html) H2) as [-> ->].
      exact (@logs_kept _ _ _ _ _ (@preserves_fetch _ logs W logs_ignores_trace logs_ext url) H1).
Qed.

Lemma contact_step_inputs_reach url st summary hd st4 :
  contact_step_inputs W url st = Some (summary, hd, st4) ->
  reaches_contact_step W url st summary hd st4.
Proof.
  unfold contact_step_inputs, reaches_contact_step.
  destruct (fetch_website_content W url st) as [[[[|c html]|]|e] st1];
    try discriminate.
  destruct (extract_text_from_html W (c :: html) st1)
    as [[[|c2 t]|e] st2] eqn:E2; try discriminate.
  destruct (summarize_company W (c2 :: t) st2)
    as [[[|c3 s]|e] st3] eqn:E3; try discriminate.
  destruct (find_contacts_hunter W url st3) as [[h|e] s4] eqn:E4;
    try discriminate.
  intros H. injection H as <- <- <-.
  exists (c :: html), (c2 :: t), st1, st2, st3. auto 10.
Qed.

(** The failure logger, for the two answers the append can get that the
    logger handles itself. *)
Lemma log_failed_lookup_run d st :
  let request := SheetsAppend FailuresSheet [JStr d] in
  let o := answer W (trace st ++ [Enter FailureLogger]) request in
  o = Ret tt \/ o = Raise HttpError ->
  exists b st',
    log_failed_lookup W d st = (Ret b, st') /\
    trace st' = trace st ++ [Enter FailureLogger; External request] /\
    failure_log st' = failure_log st ++ rows_added o [JStr d] /\
    success_log st' = success_log st /\
    results st' = results st.
Proof.
  intros request o Ho.
  unfold log_failed_lookup, bind, enter, try_except, ext. simpl.
  fold request. fold o.
  destruct Ho as [-> | ->]; simpl; eexists; eexists;
    (split; [reflexivity|]); simpl; rewrite <- app_assoc;
    repeat split; auto using app_nil_r.
Qed.

(** The success logger, likewise. *)
Lemma update_success_log_run u e n st :
  let request := SheetsAppend SuccessSheet (success_row u e n) in
  let o := answer W (trace st ++ [Enter SuccessLogger]) request in
  o = Ret tt \/ o = Raise HttpError ->
  exists b st',
    update_success_log W u e n st = (Ret b, st') /\
    trace st' = trace st ++ [Enter SuccessLogger; External request] /\
    success_log st' = success_log st ++ rows_added o (success_row u e n) /\
    failure_log st' = failure_log st /\
    results st' = results st.
Proof.
  intros request o Ho.
  unfold update_success_log, bind, enter, try_except, ext. simpl.
  fold request. fold o.
  destruct Ho as [-> | ->]; simpl; eexists; eexists;
    (split; [reflexivity|]); simpl; rewrite <- app_assoc;
    repeat split; auto using app_nil_r.
Qed.

End ContactBranch.

(** C7, amended.  For a company whose lookup returned no email, with
    derived domain [d]: the failure logger is the one component that runs,
    with the single request to append the row [[d]].  When the append is
    accepted that row, and no other, is added to the failure log; when the
    API rejects it with an [HttpError] no row is added.  In both cases
    the success log is untouched and the company is classified failure,
    not error. *)
Theorem no_email_is_failure W url st summary hd st4 :
  reaches_contact_step W url st summary hd st4 ->
  emails hd = JArr [] ->
  let request := SheetsAppend FailuresSheet [JStr (domain hd)] in
  let o := answer W (trace st4 ++ [Enter FailureLogger]) request in
  o = Ret tt \/ o = Raise HttpError ->
  exists st',
    process_company W url st = (Ret tt, st') /\
    trace st' = trace st4 ++ [Enter FailureLogger; External request] /\
    failure_log st' = failure_log st ++ rows_added o [JStr (domain hd)] /\
    success_log st' = success_log st /\
    classified_failure (results st) (results st') /\
    processed (results st') = processed (results st) + 1 /\
    exists parsed,
      urlparse (netloc_valid W) url = Ret parsed /\
      domain hd = domain_of parsed.
Proof.
  intros Hreach Hemails request o Ho.
  destruct (reaches_contact_step_run Hreach) as (Hb & Hr & Hs & Hf).
  destruct (@log_failed_lookup_run W (domain hd) st4 Ho)
    as (b & st5 & E & T & F & S & R).
  exists (set_results (incr_processed (incr_failures (results st5))) st5).
  split; [|split; [|split; [|split; [|split; [|split]]]]].
  - unfold process_company, try_except. rewrite Hb.
    unfold contact_step, bind. rewrite Hemails. simpl.
    unfold not_found_branch, bind. rewrite E. reflexivity.
  - exact T.
  - simpl. rewrite F, Hf. reflexivity.
  - simpl. rewrite S. exact Hs.
  - unfold classified_failure. simpl. rewrite R, Hr. auto.
  - simpl. rewrite R, Hr. reflexivity.
  - destruct Hreach as (_ & _ & _ & _ & st3 & _ & _ & _ & _ & _ & _ & H4).
    exact (find_contacts_domain _ _ _ H4).
Qed.

Lemma no_email_is_failure_witness :
  exists st',
    process_company world_no_email example_url initial_state = (Ret tt, st') /\
    failure_log st' = [[JStr (py "example.com")]] /\
    classified_failure zero_tally (results st').
Proof.
  destruct (no_email_is_failure
              (@contact_step_inputs_reach world_no_email example_url
                 initial_state _ _ _ eq_refl)
              eq_refl (or_introl eq_refl))
    as (st' & P & _ & F & _ & C & _).
  exists st'. split; [exact P|]. split; [exact F|exact C].
Defined.

(** C7 as worded fails: when the spreadsheet API rejects the append with
    an [HttpError], the logger returns [False], the runner does not look at
    it, and the company is counted a failure with no row on the log. *)
Lemma failure_row_not_always_logged : ~ failure_row_always_logged.
Proof.
  intros H.
  destruct (H world_no_email_append_rejected example_url initial_state
              _ _ _
              (@contact_step_inputs_reach world_no_email_append_rejected
                 example_url initial_state _ _ _ eq_refl)
              eq_refl)
    as (st' & P & F & _).
  vm_compute in P. injection P as <-.
  vm_compute in F. discriminate.
Qed.

(** C5, amended.  For a company whose lookup found at least one email and
    whose body and subject were both generated non-empty.  If the draft is
    published, the success logger runs with the single request to append
    the row [[url, email, name]]: when the append is accepted that row,
    and no other, is added to the success log; when the API rejects it with
    an [HttpError] no row is added; in both cases the failure log is
    untouched and the company is classified success.  If the draft is not
    published, the iteration ends where the publisher returned, the company
    is classified error and neither log has changed. *)
Theorem publish_decides_outcome W url st summary hd st4 fields rest
    body st5 subject st6 created st7 :
  reaches_contact_step W url st summary hd st4 ->
  emails hd = JArr (JObj fields :: rest) ->
  let contact_email := entry_field fields (py "value") in
  let first_name := entry_field fields (py "first_name") in
  let last_name := entry_field fields (py "last_name") in
  generate_email_body W summary first_name last_name st4 = (Ret body, st5) ->
  str_truthy body = true ->
  generate_email_subject W summary (organization hd) first_name last_name st5
    = (Ret subject, st6) ->
  str_truthy subject = true ->
  create_gmail_draft W contact_email subject body st6 = (Ret created, st7) ->
  let new_row := success_row url contact_email (contact_name_of W fields) in
  let request := SheetsAppend SuccessSheet new_row in
  let o := answer W (trace st7 ++ [Enter SuccessLogger]) request in
  (created = true ->
   o = Ret tt \/ o = Raise HttpError ->
   exists st',
     process_company W url st = (Ret tt, st') /\
     trace st' = trace st7 ++ [Enter SuccessLogger; External request] /\
     success_log st' = success_log st ++ rows_added o new_row /\
     failure_log st' = failure_log st /\
     classified_success (results st) (results st')) /\
  (created = false ->
   process_company W url st =
     (Ret tt, set_results (incr_processed (incr_errors (results st))) st7) /\
   success_log st7 = success_log st /\
   failure_log st7 = failure_log st /\
   classified_error (results st)
     (incr_processed (incr_errors (results st)))).
Proof.
  intros Hreach Hemails contact_email first_name last_name
         Hbody Tb Hsubject Ts Hdraft new_row request o.
  destruct (reaches_contact_step_run Hreach) as (Hb & Hr & Hs & Hf).
  assert (L7 : success_log st7 = success_log st /\
               failure_log st7 = failure_log st /\
               results st7 = results st).
  { pose proof (preserves_logs_ext W) as LE.
    pose proof (fun r (_ : is_append r = false) =>
                  preserves_results_ext W r) as TE.
    destruct (@logs_kept _ _ _ _ _
                (@preserves_draft _ logs W logs_ignores_trace LE _ _ _)
                Hdraft) as [-> ->].
    destruct (@logs_kept _ _ _ _ _
                (@preserves_subject _ logs W logs_ignores_trace LE _ _ _ _)
                Hsubject) as [-> ->].
    destruct (@logs_kept _ _ _ _ _
                (@preserves_body _ logs W logs_ignores_trace LE _ _ _)
                Hbody) as [-> ->].
    rewrite (@run_preserves _ _ _ _ _ _ _
               (@preserves_draft _ results W results_ignores_trace TE _ _ _)
               Hdraft).
    rewrite (@run_preserves _ _ _ _ _ _ _
               (@preserves_subject _ results W results_ignores_trace TE
                  _ _ _ _) Hsubject).
    rewrite (@run_preserves _ _ _ _ _ _ _
               (@preserves_body _ results W results_ignores_trace TE _ _ _)
               Hbody).
    auto. }
  destruct L7 as (S7 & F7 & R7).
  assert (Step : company_body W url st =
                 bind (if created
                       then bind (update_success_log W url contact_email
                                    (contact_name_of W fields))
                                 (fun _ => update_results incr_successes)
                       else update_results incr_errors)
                      (fun _ => update_results incr_processed) st7).
  { rewrite Hb. unfold contact_step, bind. rewrite Hemails.
    cbn [truthy lift py_len]. 
    replace (0 <? Z.of_nat (List.length (JObj fields :: rest))) with true
      by (symmetry; apply Z.ltb_lt; simpl List.length; lia).
    unfold ret at 1. unfold found_branch, bind.
    cbn [lift index0 dict_get].
    fold (entry_field fields (py "value")).
    fold (entry_field fields (py "first_name")).
    fold (entry_field fields (py "last_name")).
    fold contact_email. fold first_name. fold last_name.
    rewrite Hbody, Hsubject, Tb, Ts. cbn [andb]. rewrite Hdraft.
    reflexivity. }
  split.
  - intros -> Ho.
    destruct (@update_success_log_run W url contact_email
                (contact_name_of W fields) st7 Ho)
      as (b & st8 & E & T & S & F & R).
    exists (set_results (incr_processed (incr_successes (results st8))) st8).
    split; [|split; [|split; [|split]]].
    + unfold process_company, try_except. rewrite Step.
      unfold bind. rewrite E. reflexivity.
    + exact T.
    + simpl. rewrite S, S7. reflexivity.
    + simpl. rewrite F. exact F7.
    + unfold classified_success. simpl. rewrite R, R7. auto.
  - intros ->. split; [|split; [exact S7|split; [exact F7|]]].
    + unfold process_company, try_except. rewrite Step.
      unfold bind, update_results. simpl. rewrite R7. reflexivity.
    + unfold classified_error. simpl. auto.
Qed.

Lemma publish_decides_outcome_witness :
  (exists st',
      process_company world_ok example_url initial_state = (Ret tt, st') /\
      success_log st' =
        [[JStr example_url; JStr (py "a@x.com"); JStr (py "A B")]] /\
      failure_log st' = [] /\
      classified_success zero_tally (results st')) /\
  (exists st7,
      process_company world_draft_rejected example_url initial_state =
        (Ret tt, set_results (incr_processed (incr_errors zero_tally)) st7) /\
      success_log st7 = [] /\ failure_log st7 = []).
Proof.
  split.
  - destruct (proj1
                (@publish_decides_outcome world_ok example_url initial_state
                   _ _ _ _ _ _ _ _ _ _ _
                   (@contact_step_inputs_reach world_ok example_url
                      initial_state _ _ _ eq_refl)
                   eq_refl eq_refl eq_refl eq_refl eq_refl eq_refl)
                eq_refl (or_introl eq_refl))
      as (st' & P & _ & S & F & C).
    exists st'. auto.
  - destruct (proj2
                (@publish_decides_outcome world_draft_rejected example_url
                   initial_state _ _ _ _ _ _ _ _ _ _ _
                   (@contact_step_inputs_reach world_draft_rejected
                      example_url initial_state _ _ _ eq_refl)
                   eq_refl eq_refl eq_refl eq_refl eq_refl eq_refl)
                eq_refl)
      as (P & S & F & _).
    eexists. split; [exact P|]. auto.
Defined.

(** C5 as worded fails: when the spreadsheet API rejects the append with
    an [HttpError] after the draft was published, the logger returns
    [False], the runner does not look at it, and the company is counted a
    success with no row on the success log. *)
Lemma success_row_not_always_logged : ~ success_row_always_logged.
Proof.
  intros H.
  destruct (H world_append_rejected example_url initial_state
              _ _ _ _ _ _ _ _ _ _
              (@contact_step_inputs_reach world_append_rejected
                 example_url initial_state _ _ _ eq_refl)
              eq_refl eq_refl eq_refl eq_refl eq_refl eq_refl)
    as (st' & P & S & _).
  vm_compute in P. injection P as <-.
  vm_compute in S. discriminate.
Qed.

(* ================================================================== *)
(** ** The script and its exit status *)

(** C6.  The process ends with status 0 when the run returned a tally with
    at least one company processed and fewer errors than companies; with
    status 1 when the run returned any other tally (total failure), when no
    company URL was read, and when an exception reaches the top level; and
    with status 130, which is neither 0 nor 1, when the user interrupts the
    reading of the input or the run. *)
Theorem exit_status_of_script W st :
  (forall urls st1 t st2,
      read_company_urls_from_sheets W st = (Ret urls, st1) ->
      urls <> [] ->
      outbound_sales_workflow W urls st1 = (Ret t, st2) ->
      (0 < processed t /\ errors t < Z.of_nat (List.length urls) ->
       run_main W st = 0) /\
      (~ (0 < processed t /\ errors t < Z.of_nat (List.length urls)) ->
       run_main W st = 1)) /\
  (forall st1,
      read_company_urls_from_sheets W st = (Ret [], st1) ->
      run_main W st = 1) /\
  (forall e st1,
      read_company_urls_from_sheets W st = (Raise e, st1) ->
      is_Exception e = true ->
      run_main W st = 1) /\
  (forall urls st1 e st2,
      read_company_urls_from_sheets W st = (Ret urls, st1) ->
      urls <> [] ->
      outbound_sales_workflow W urls st1 = (Raise e, st2) ->
      is_Exception e = true ->
      run_main W st = 1) /\
  (forall st1,
      read_company_urls_from_sheets W st = (Raise KeyboardInterrupt, st1) ->
      run_main W st = 130) /\
  (forall urls st1 st2,
      read_company_urls_from_sheets W st = (Ret urls, st1) ->
      urls <> [] ->
      outbound_sales_workflow W urls st1 = (Raise KeyboardInterrupt, st2) ->
      run_main W st = 130) /\
  130 <> 0 /\ 130 <> 1.
Proof.
  unfold run_main, main, try_except, bind.
  split; [|split; [|split; [|split; [|split; [|split; [|split]]]]]];
    try discriminate.
  - intros urls st1 t st2 H Hu H1. rewrite H.
    destruct urls as [|u rest]; [congruence|]. rewrite H1. split.
    + intros [Hp He].
      apply Z.ltb_lt in Hp. apply Z.ltb_lt in He. rewrite Hp, He.
      reflexivity.
    + intros Hn.
      destruct (0 <? processed t) eqn:Hp;
        [destruct (errors t <? Z.of_nat (List.length (u :: rest))) eqn:He|];
        try reflexivity.
      exfalso. apply Hn. split; apply Z.ltb_lt; assumption.
  - intros st1 H. rewrite H. reflexivity.
  - intros e st1 H He. rewrite H. simpl.
    destruct e; try discriminate; reflexivity.
  - intros urls st1 e st2 H Hu H1 He. rewrite H.
    destruct urls as [|u rest]; [congruence|]. rewrite H1. simpl.
    destruct e; try discriminate; reflexivity.
  - intros st1 H. rewrite H. reflexivity.
  - intros urls st1 st2 H Hu H1. rewrite H.
    destruct urls as [|u rest]; [congruence|]. rewrite H1. reflexivity.
Qed.

Lemma exit_status_of_script_witness :
  run_main world_ok initial_state = 0 /\
  run_main world_fetch_timeout initial_state = 1 /\
  run_main world_header_only initial_state = 1 /\
  run_main world_read_crash initial_state = 1 /\
  run_main world_interrupted initial_state = 130.
Proof.
  assert (N : [example_url] <> []) by discriminate.
  split; [|split; [|split; [|split]]].
  - apply (proj1 (proj1 (exit_status_of_script world_ok initial_state)
                    [example_url] _ _ _ eq_refl N eq_refl)).
    vm_compute. split; reflexivity.
  - apply (proj2 (proj1 (exit_status_of_script world_fetch_timeout
                           initial_state)
                    [example_url] _ _ _ eq_refl N eq_refl)).
    vm_compute. intros [H _]. discriminate.
  - exact (proj1 (proj2 (exit_status_of_script world_header_only
                           initial_state)) _ eq_refl).
  - exact (proj1 (proj2 (proj2 (exit_status_of_script world_read_crash
                                  initial_state))) _ _ eq_refl eq_refl).
  - exact (proj1 (proj2 (proj2 (proj2 (proj2 (proj2
             (exit_status_of_script world_interrupted initial_state))))))
             [example_url] _ _ eq_refl N eq_refl).
Defined.

(* ================================================================== *)
(** ** Text shape: [strip], [split]/[join] and [replace] *)

Lemma drop_while_snoc (p : N -> bool) (l : pystr) x :
  p x = false -> drop_while p (l ++ [x]) = drop_while p l ++ [x].
Proof.
  intros Hx. induction l as [|c l IH]; simpl.
  - rewrite Hx. reflexivity.
  - destruct (p c); [exact IH | reflexivity].
Qed.

Lemma last_rev_cons (x : N) (l : pystr) d : last (rev (x :: l)) d = x.
Proof. simpl. apply last_last. Qed.

Lemma last_cons_nonempty (x : N) (l : pystr) d :
  l <> [] -> last (x :: l) d = last l d.
Proof. destruct l; [congruence|reflexivity]. Qed.

(** What [strip] returns has no whitespace at either end. *)
Lemma strip_edge_clean (s : pystr) : edge_clean (strip s).
Proof.
  unfold strip, rstrip, lstrip.
  destruct (drop_while isspace s) as [|x t] eqn:D; [exact I|].
  pose proof (@drop_while_head isspace s x t D) as Hx.
  simpl rev. rewrite (@drop_while_snoc isspace (rev t) x Hx).
  rewrite rev_app_distr.
  change (rev [x] ++ rev (drop_while isspace (rev t)))
    with (x :: rev (drop_while isspace (rev t))).
  unfold edge_clean. split; [exact Hx|].
  destruct (drop_while isspace (rev t)) as [|y u] eqn:E; [exact Hx|].
  pose proof (@drop_while_head isspace (rev t) y u E) as Hy.
  rewrite last_cons_nonempty by (simpl; destruct (rev u); discriminate).
  rewrite last_rev_cons. exact Hy.
Qed.

(** What a model-backed task returns: the stripped content, or the empty
    string of its [except] clause. *)
Lemma llm_task_result W c p st r st' :
  bind (enter c)
    (fun _ =>
       try_except
         (bind (ext W (LlmInvoke p))
            (fun content =>
               bind (lift (json_strip content)) (fun x => ret x)))
         [(is_Exception, ret [])]) st = (Ret r, st') ->
  r = [] \/ exists s, r = strip s.
Proof.
  unfold bind, enter, try_except, ext, lift. simpl.
  destruct (answer W (trace st ++ [Enter c]) (LlmInvoke p)) as [v|e]; simpl.
  - destruct (json_strip v) as [s|e] eqn:J; simpl.
    + intros H. injection H as <- _. right.
      destruct v; try discriminate. injection J as <-. eauto.
    + destruct (is_Exception e); simpl; intros H;
        [injection H as <- _; auto | discriminate].
  - destruct (is_Exception e); simpl; intros H;
      [injection H as <- _; auto | discriminate].
Qed.

(** X1.  The summary, the email body and the subject line never come back
    with whitespace at either end: each is empty or begins and ends with a
    non-space character. *)
Theorem generated_text_has_clean_edges W st r st' :
  (exists t, summarize_company W t st = (Ret r, st')) \/
  (exists s a b, generate_email_body W s a b st = (Ret r, st')) \/
  (exists s o a b, generate_email_subject W s o a b st = (Ret r, st')) ->
  edge_clean r.
Proof.
  intros H.
  assert (E : r = [] \/ exists s, r = strip s).
  { destruct H as [[t H]|[[s [a [b H]]]|[s [o [a [b H]]]]]];
      exact (llm_task_result _ _ _ _ H). }
  destruct E as [->|[s ->]]; [exact I | apply strip_edge_clean].
Qed.

Lemma generated_text_has_clean_edges_witness :
  fst (summarize_company (scripted padded_reply) (py "Hello") initial_state) =
    Ret (py "Acme builds rockets.") /\
  edge_clean (py "Acme builds rockets.").
Proof.
  split; [reflexivity|].
  apply (@generated_text_has_clean_edges (scripted padded_reply)
           initial_state _
           (snd (summarize_company (scripted padded_reply) (py "Hello")
                   initial_state))).
  left. exists (py "Hello"). reflexivity.
Defined.

(* ------------------------------------------------------------------ *)

Lemma no_space_rev (s : pystr) : no_space (rev s) = no_space s.
Proof.
  unfold no_space. induction s as [|c s IH]; [reflexivity|]. simpl.
  rewrite forallb_app, IH. simpl. rewrite andb_true_r. apply andb_comm.
Qed.

(** The words [split] produces are non-empty and free of whitespace. *)
Lemma str_split_words (s : pystr) :
  forall cur, no_space cur = true ->
    Forall (fun w => w <> [] /\ no_space w = true) (str_split s cur).
Proof.
  induction s as [|c s IH]; intros cur Hc; simpl.
  - destruct cur as [|x cur]; [constructor|].
    constructor; [|constructor]. split.
    + simpl. destruct (rev cur); discriminate.
    + rewrite no_space_rev. exact Hc.
  - destruct (isspace c) eqn:E.
    + destruct cur as [|x cur]; [apply IH; reflexivity|].
      constructor; [|apply IH; reflexivity]. split.
      * simpl. destruct (rev cur); discriminate.
      * rewrite no_space_rev. exact Hc.
    + apply IH. unfold no_space in *. simpl. rewrite E. exact Hc.
Qed.

Lemma tidy_after_word (w rest : pystr) b :
  w <> [] -> no_space w = true ->
  tidy_after b (w ++ rest) = tidy_after false rest.
Proof.
  revert b. induction w as [|c w IH]; intros b Hn Hw; [congruence|].
  unfold no_space in Hw. simpl in Hw. apply andb_prop in Hw.
  destruct Hw as [Hc Hw]. apply negb_true_iff in Hc.
  simpl. rewrite Hc.
  destruct w as [|c' w']; [reflexivity|].
  apply IH; [discriminate | exact Hw].
Qed.

Lemma tidy_after_join (ws : list pystr) :
  Forall (fun w => w <> [] /\ no_space w = true) ws ->
  forall b, tidy_after b (str_join (py " ") ws) = true.
Proof.
  induction 1 as [|w ws [Hn Hw] Hws IH]; intros b; [reflexivity|].
  destruct ws as [|w2 ws'].
  - simpl. rewrite <- (app_nil_r w). rewrite tidy_after_word by assumption.
    reflexivity.
  - change (str_join (py " ") (w :: w2 :: ws'))
      with (w ++ py " " ++ str_join (py " ") (w2 :: ws')).
    rewrite tidy_after_word by assumption.
    change (py " " ++ str_join (py " ") (w2 :: ws'))
      with (32%N :: str_join (py " ") (w2 :: ws')).
    simpl tidy_after at 1. apply IH.
Qed.

Lemma tidy_after_firstn (n : nat) (s : pystr) :
  forall b, tidy_after b s = true -> tidy_after b (firstn n s) = true.
Proof.
  revert s. induction n as [|n IH]; intros s b H; [reflexivity|].
  destruct s as [|c s]; [reflexivity|]. simpl in *.
  destruct (isspace c).
  - apply andb_prop in H. destruct H as [H1 H2].
    rewrite H1. simpl. apply IH. exact H2.
  - apply IH. exact H.
Qed.

(** A text without whitespace is its own single word. *)
Lemma str_split_no_space (t : pystr) :
  no_space t = true ->
  forall cur,
    str_split t cur =
    match rev cur ++ t with [] => [] | _ :: _ => [rev cur ++ t] end.
Proof.
  induction t as [|c t IH]; intros Ht cur.
  - simpl. rewrite app_nil_r.
    destruct cur as [|x cur]; [reflexivity|].
    simpl. destruct (rev cur ++ [x]) eqn:E; [|reflexivity].
    destruct (rev cur); discriminate.
  - unfold no_space in Ht. simpl in Ht. apply andb_prop in Ht.
    destruct Ht as [Hc Ht]. apply negb_true_iff in Hc.
    simpl. rewrite Hc. rewrite (IH Ht). simpl.
    rewrite <- app_assoc. reflexivity.
Qed.

Lemma normalise_no_space (t : pystr) : no_space t = true -> normalise t = t.
Proof.
  intros H. unfold normalise. rewrite (str_split_no_space _ H). simpl.
  destruct t; reflexivity.
Qed.

(** What the extractor returns: the capped normalised text of the parser,
    or the empty string of its [except] clause. *)
Lemma extract_result W html st r st' :
  extract_text_from_html W html st = (Ret r, st') ->
  r = [] \/
  exists t,
    answer W (trace st ++ [Enter TextExtractor]) (SoupText html) = Ret t /\
    r = firstn 5000 (normalise t).
Proof.
  unfold extract_text_from_html, bind, enter, try_except, ext. simpl.
  destruct (answer W (trace st ++ [Enter TextExtractor]) (SoupText html))
    as [t|e]; simpl.
  - intros H. injection H as <- _. right. exists t. auto.
  - destruct (is_Exception e); simpl; intros H;
      [injection H as <- _; auto | discriminate].
Qed.

(** X2.  The text the extractor returns is at most 5000 characters long,
    and its whitespace is normalised: only single ASCII spaces between
    words, and none in front. *)
Theorem extracted_text_is_capped_and_tidy W html st r st' :
  extract_text_from_html W html st = (Ret r, st') ->
  (List.length r <= 5000)%nat /\ tidy r = true.
Proof.
  intros H. destruct (extract_result _ _ _ H) as [->|[t [_ ->]]].
  - split; [apply Nat.le_0_l | reflexivity].
  - split; [apply firstn_le_length|].
    apply tidy_after_firstn. apply tidy_after_join.
    apply str_split_words. reflexivity.
Qed.

Lemma extracted_text_is_capped_and_tidy_witness :
  fst (extract_text_from_html (scripted ragged_page) (py "<p>") initial_state)
    = Ret (py "Hello big world") /\
  (List.length (py "Hello big world") <= 5000)%nat /\
  tidy (py "Hello big world") = true.
Proof.
  split; [reflexivity|].
  exact (@extracted_text_is_capped_and_tidy (scripted ragged_page) (py "<p>")
           initial_state _ _ eq_refl).
Defined.

(** X3.  When the parser's text holds no whitespace at all, the extractor
    returns its first 5000 characters unchanged; a text of 5000 characters
    or more therefore comes back exactly 5000 long. *)
Theorem extracted_text_without_space W html st t :
  answer W (trace st ++ [Enter TextExtractor]) (SoupText html) = Ret t ->
  no_space t = true ->
  fst (extract_text_from_html W html st) = Ret (firstn 5000 t) /\
  List.length (firstn 5000 t) = Nat.min 5000 (List.length t).
Proof.
  intros H Ht. split; [|apply length_firstn].
  unfold extract_text_from_html, bind, enter, try_except, ext. simpl.
  rewrite H. simpl. fold (normalise t). rewrite (normalise_no_space _ Ht).
  reflexivity.
Qed.

Lemma extracted_text_without_space_witness :
  fst (extract_text_from_html world_ok (py "<p>") initial_state) =
  Ret (py "Hello").
Proof.
  exact (proj1 (@extracted_text_without_space world_ok (py "<p>")
                  initial_state (py "Hello") eq_refl eq_refl)).
Defined.

(* ------------------------------------------------------------------ *)

Section Replace.

Variables (o : N) (old' : pystr).
Let old : pystr := o :: old'.

Lemma replace_scan_skip (new s : pystr) :
  forall k, replace_scan old new k s = replace_scan old new 0 (skipn k s).
Proof.
  induction s as [|c s IH]; intros k.
  - destruct k; reflexivity.
  - destruct k as [|k]; [reflexivity|]. simpl. apply IH.
Qed.

Lemma replace_scan_absent (new s : pystr) :
  occurs old s = false -> replace_scan old new 0 s = s.
Proof.
  induction s as [|c s IH]; intros H; [reflexivity|].
  simpl in H. apply orb_false_elim in H. destruct H as [H1 H2].
  change (replace_scan old new 0 (c :: s))
    with (if starts_with old (c :: s)
          then new ++ replace_scan old new (List.length old - 1) s
          else c :: replace_scan old new 0 s).
  unfold old at 1. simpl starts_with. rewrite H1. rewrite (IH H2).
  reflexivity.
Qed.

Lemma replace_scan_length (s : pystr) :
  forall k,
    (List.length (replace_scan old [] k s) <= List.length s - k)%nat.
Proof.
  induction s as [|c s IH]; intros k; [simpl; lia|].
  destruct k as [|k].
  - change (replace_scan old [] 0 (c :: s))
      with (if starts_with old (c :: s)
            then [] ++ replace_scan old [] (List.length old - 1) s
            else c :: replace_scan old [] 0 s).
    destruct (starts_with old (c :: s)); simpl.
    + specialize (IH (List.length old' - 0)%nat). lia.
    + specialize (IH 0%nat). lia.
  - simpl. apply IH.
Qed.

Lemma replace_scan_present (s : pystr) :
  occurs old s = true ->
  (List.length (replace_scan old [] 0 s) < List.length s)%nat.
Proof.
  induction s as [|c s IH]; intros H; [discriminate|].
  change (replace_scan old [] 0 (c :: s))
    with (if starts_with old (c :: s)
          then [] ++ replace_scan old [] (List.length old - 1) s
          else c :: replace_scan old [] 0 s).
  simpl in H.
  destruct (starts_with old (c :: s)) eqn:E.
  - pose proof (replace_scan_length s (List.length old - 1)) as L.
    simpl in *. lia.
  - unfold old in E. simpl in E. rewrite E in H. simpl in H.
    specialize (IH H). simpl. lia.
Qed.

Lemma starts_with_skip (s : pystr) :
  starts_with old s = true ->
  replace_scan old [] 0 s = replace_scan old [] 0 (skipn (List.length old) s).
Proof.
  destruct s as [|c s]; [discriminate|]. intros H.
  change (replace_scan old [] 0 (c :: s))
    with (if starts_with old (c :: s)
          then [] ++ replace_scan old [] (List.length old - 1) s
          else c :: replace_scan old [] 0 s).
  rewrite H. simpl. rewrite Nat.sub_0_r. apply replace_scan_skip.
Qed.

(** Deleting every occurrence and deleting a leading one give the same
    text exactly when nothing is left to delete behind the prefix. *)
Lemma delete_all_vs_prefix (s : pystr) :
  str_replace old [] s = removeprefix old s <->
  occurs old (removeprefix old s) = false.
Proof.
  assert (E : str_replace old [] s =
              replace_scan old [] 0 (removeprefix old s)).
  { change (str_replace old [] s) with (replace_scan old [] 0 s).
    unfold removeprefix.
    destruct (starts_with old s) eqn:P; [|reflexivity].
    apply starts_with_skip. exact P. }
  rewrite E. split.
  - intros H. destruct (occurs old (removeprefix old s)) eqn:O; [|reflexivity].
    apply replace_scan_present in O. rewrite H in O. lia.
  - apply replace_scan_absent.
Qed.

End Replace.

(** X4.  The domain the finder derives is the host with a leading [www.]
    removed exactly when [www.] does not occur again in what follows;
    otherwise the derived domain is a different, shorter text. *)
Theorem derived_domain_vs_leading_www (parsed : ParseResult) :
  let host := host_base parsed in
  let stripped := removeprefix (py "www.") host in
  (domain_of parsed = stripped <-> occurs (py "www.") stripped = false) /\
  (occurs (py "www.") stripped = true ->
   (List.length (domain_of parsed) < List.length stripped)%nat).
Proof.
  intros host stripped. split.
  - exact (delete_all_vs_prefix 119 (py "ww.") host).
  - intros O.
    assert (E : domain_of parsed =
                replace_scan (py "www.") [] 0 stripped).
    { unfold domain_of. fold (host_base parsed). fold host.
      unfold stripped, removeprefix.
      destruct (starts_with (py "www.") host) eqn:P; [|reflexivity].
      exact (starts_with_skip 119 (py "ww.") host P). }
    rewrite E. exact (replace_scan_present 119 (py "ww.") stripped O).
Qed.

(* ================================================================== *)
(** ** Where exceptions stop *)

Lemma catch_all_contains A (body : M A) (x : A) st e st' :
  try_except body [(is_Exception, ret x)] st = (Raise e, st') ->
  is_Exception e = false.
Proof.
  unfold try_except. destruct (body st) as [[a|e1] st1]; [discriminate|].
  simpl. destruct (is_Exception e1) eqn:E; [discriminate|].
  intros H. injection H as <- _. exact E.
Qed.

Lemma entered_raise A c (m : M A) st e st' :
  bind (enter c) (fun _ => m) st = (Raise e, st') ->
  m (record_event (Enter c) st) = (Raise e, st').
Proof. intros H. exact H. Qed.

(** X5.  The fetcher, the extractor, the summarizer, the two composers and
    the draft publisher never let an [Exception] out: whatever the world
    does, if one of them raises, what it raises is not an [Exception] (it
    is an interrupt passing through). *)
Theorem tasks_contain_exceptions W st e st' :
  (exists url, fetch_website_content W url st = (Raise e, st')) \/
  (exists html, extract_text_from_html W html st = (Raise e, st')) \/
  (exists t, summarize_company W t st = (Raise e, st')) \/
  (exists s a b, generate_email_body W s a b st = (Raise e, st')) \/
  (exists s o a b, generate_email_subject W s o a b st = (Raise e, st')) \/
  (exists t s b, create_gmail_draft W t s b st = (Raise e, st')) ->
  is_Exception e = false.
Proof.
  intros [[u H]|[[h H]|[[t H]|[[s [a [b H]]]|[[s [o [a [b H]]]]
                                            |[t [s [b H]]]]]]]];
    apply entered_raise in H;
    try exact (catch_all_contains _ _ _ H).
  unfold try_except in H.
  match type of H with
  | context [match ?m ?s with _ => _ end] =>
      destruct (m s) as [[x|e1] st1]; [discriminate|]
  end.
  simpl in H. destruct (is_HttpError e1); [discriminate|].
  destruct (is_Exception e1) eqn:E; [discriminate|].
  injection H as <- _. exact E.
Qed.

Lemma tasks_contain_exceptions_witness :
  fetch_website_content world_interrupted example_url initial_state =
    (Raise KeyboardInterrupt,
     record_event (External (HttpGet example_url))
       (record_event (Enter ContentFetcher) initial_state)) /\
  is_Exception KeyboardInterrupt = false.
Proof.
  split; [reflexivity|].
  apply (@tasks_contain_exceptions world_interrupted initial_state
           KeyboardInterrupt
           (snd (fetch_website_content world_interrupted example_url
                   initial_state))).
  left. exists example_url. reflexivity.
Defined.

(** A logger whose append fails outside [HttpError] raises what the append
    raised, with both logs as they were. *)
Lemma logger_passes_on W (c : component) sh (r : row) st e :
  answer W (trace st ++ [Enter c]) (SheetsAppend sh r) = Raise e ->
  is_HttpError e = false ->
  bind (enter c)
    (fun _ =>
       try_except (bind (ext W (SheetsAppend sh r)) (fun _ => ret true))
         [(is_HttpError, ret false)]) st =
  (Raise e,
   record_event (External (SheetsAppend sh r)) (record_event (Enter c) st)).
Proof.
  intros H He.
  unfold bind, enter, try_except, ext. simpl. rewrite H. simpl.
  rewrite He. reflexivity.
Qed.

(** X6.  The failure logger handles [HttpError] only.  When the append of
    the failure row raises any other [Exception], the logger raises it
    too; a company whose lookup returned no email is then counted as an
    error, not a failure, [processed] does not move and no row is
    written. *)
Theorem failure_logger_crash_is_error W url st summary hd st4 e :
  reaches_contact_step W url st summary hd st4 ->
  emails hd = JArr [] ->
  answer W (trace st4 ++ [Enter FailureLogger])
    (SheetsAppend FailuresSheet [JStr (domain hd)]) = Raise e ->
  is_HttpError e = false ->
  is_Exception e = true ->
  fst (log_failed_lookup W (domain hd) st4) = Raise e /\
  exists st',
    process_company W url st = (Ret tt, st') /\
    classified_error (results st) (results st') /\
    processed (results st') = processed (results st) /\
    failure_log st' = failure_log st /\
    success_log st' = success_log st.
Proof.
  intros Hreach Hemails Ha Hh He.
  destruct (reaches_contact_step_run Hreach) as (Hb & Hr & Hs & Hf).
  pose proof (@logger_passes_on W FailureLogger FailuresSheet
                [JStr (domain hd)] st4 e Ha Hh) as L.
  fold (log_failed_lookup W (domain hd)) in L.
  split; [rewrite L; reflexivity|].
  eexists. split.
  - unfold process_company, try_except. rewrite Hb.
    unfold contact_step, bind. rewrite Hemails. simpl.
    unfold not_found_branch, bind. rewrite L. simpl. rewrite He.
    reflexivity.
  - simpl. rewrite Hr, Hs, Hf. unfold classified_error. simpl. auto.
Qed.

Lemma failure_logger_crash_is_error_witness :
  exists st',
    process_company world_no_email_append_crash example_url initial_state =
      (Ret tt, st') /\
    results st' = incr_errors zero_tally /\
    failure_log st' = [].
Proof.
  destruct (proj2
              (@failure_logger_crash_is_error world_no_email_append_crash
                 example_url initial_state _ _ _ (OtherException 7)
                 (@contact_step_inputs_reach world_no_email_append_crash
                    example_url initial_state _ _ _ eq_refl)
                 eq_refl eq_refl eq_refl eq_refl))
    as (st' & P & _ & _ & F & _).
  exists st'. split; [exact P|]. split; [|exact F].
  vm_compute in P. injection P as <-. reflexivity.
Defined.

(** The iteration of a company for which an email was found and both texts
    were composed, from the point where the publisher has returned. *)
Lemma composed_company_run W url st summary hd st4 fields rest
    body st5 subject st6 created st7 :
  reaches_contact_step W url st summary hd st4 ->
  emails hd = JArr (JObj fields :: rest) ->
  generate_email_body W summary (entry_field fields (py "first_name"))
    (entry_field fields (py "last_name")) st4 = (Ret body, st5) ->
  str_truthy body = true ->
  generate_email_subject W summary (organization hd)
    (entry_field fields (py "first_name"))
    (entry_field fields (py "last_name")) st5 = (Ret subject, st6) ->
  str_truthy subject = true ->
  create_gmail_draft W (entry_field fields (py "value")) subject body st6 =
    (Ret created, st7) ->
  company_body W url st =
    bind (if created
          then bind (update_success_log W url
                       (entry_field fields (py "value"))
                       (contact_name_of W fields))
                    (fun _ => update_results incr_successes)
          else update_results incr_errors)
         (fun _ => update_results incr_processed) st7 /\
  results st7 = results st /\
  success_log st7 = success_log st /\ failure_log st7 = failure_log st.
Proof.
  intros Hreach Hemails Hbody Tb Hsubject Ts Hdraft.
  destruct (reaches_contact_step_run Hreach) as (Hb & Hr & Hs & Hf).
  split.
  - rewrite Hb. unfold contact_step, bind. rewrite Hemails.
    cbn [truthy lift py_len].
    replace (0 <? Z.of_nat (List.length (JObj fields :: rest))) with true
      by (symmetry; apply Z.ltb_lt; simpl List.length; lia).
    unfold ret at 1. unfold found_branch, bind.
    cbn [lift index0 dict_get].
    fold (entry_field fields (py "value")).
    fold (entry_field fields (py "first_name")).
    fold (entry_field fields (py "last_name")).
    rewrite Hbody, Hsubject, Tb, Ts. cbn [andb]. rewrite Hdraft.
    reflexivity.
  - pose proof (preserves_logs_ext W) as LE.
    pose proof (fun r (_ : is_append r = false) =>
                  preserves_results_ext W r) as TE.
    destruct (@logs_kept _ _ _ _ _
                (@preserves_draft _ logs W logs_ignores_trace LE _ _ _)
                Hdraft) as [-> ->].
    destruct (@logs_kept _ _ _ _ _
                (@preserves_subject _ logs W logs_ignores_trace LE _ _ _ _)
                Hsubject) as [-> ->].
    destruct (@logs_kept _ _ _ _ _
                (@preserves_body _ logs W logs_ignores_trace LE _ _ _)
                Hbody) as [-> ->].
    rewrite (@run_preserves _ _ _ _ _ _ _
               (@preserves_draft _ results W results_ignores_trace TE _ _ _)
               Hdraft).
    rewrite (@run_preserves _ _ _ _ _ _ _
               (@preserves_subject _ results W results_ignores_trace TE
                  _ _ _ _) Hsubject).
    rewrite (@run_preserves _ _ _ _ _ _ _
               (@preserves_body _ results W results_ignores_trace TE _ _ _)
               Hbody).
    auto.
Qed.

(** X7.  The success logger handles [HttpError] only.  When the draft has
    been published and the append of the success row then raises any other
    [Exception], the company is counted as an error although its draft
    exists: [successes] and [processed] do not move and no row is
    written. *)
Theorem success_logger_crash_is_error W url st summary hd st4 fields rest
    body st5 subject st6 st7 e :
  reaches_contact_step W url st summary hd st4 ->
  emails hd = JArr (JObj fields :: rest) ->
  generate_email_body W summary (entry_field fields (py "first_name"))
    (entry_field fields (py "last_name")) st4 = (Ret body, st5) ->
  str_truthy body = true ->
  generate_email_subject W summary (organization hd)
    (entry_field fields (py "first_name"))
    (entry_field fields (py "last_name")) st5 = (Ret subject, st6) ->
  str_truthy subject = true ->
  create_gmail_draft W (entry_field fields (py "value")) subject body st6 =
    (Ret true, st7) ->
  answer W (trace st7 ++ [Enter SuccessLogger])
    (SheetsAppend SuccessSheet
       (success_row url (entry_field fields (py "value"))
          (contact_name_of W fields))) = Raise e ->
  is_HttpError e = false ->
  is_Exception e = true ->
  exists st',
    process_company W url st = (Ret tt, st') /\
    classified_error (results st) (results st') /\
    processed (results st') = processed (results st) /\
    success_log st' = success_log st /\
    failure_log st' = failure_log st.
Proof.
  intros Hreach Hemails Hbody Tb Hsubject Ts Hdraft Ha Hh He.
  destruct (@composed_company_run W url st summary hd st4 fields rest
              body st5 subject st6 true st7
              Hreach Hemails Hbody Tb Hsubject Ts Hdraft)
    as (Step & R7 & S7 & F7).
  pose proof (@logger_passes_on W SuccessLogger SuccessSheet _ st7 e Ha Hh)
    as L.
  eexists. split.
  - unfold process_company, try_except. rewrite Step.
    unfold bind at 1. unfold bind at 1.
    unfold update_success_log. rewrite L. simpl. rewrite He. reflexivity.
  - simpl. rewrite R7, S7, F7. unfold classified_error. simpl. auto.
Qed.

Lemma success_logger_crash_is_error_witness :
  exists st',
    process_company world_append_crash example_url initial_state =
      (Ret tt, st') /\
    results st' = incr_errors zero_tally /\
    success_log st' = [].
Proof.
  destruct (@success_logger_crash_is_error world_append_crash
              example_url initial_state _ _ _ _ _ _ _ _ _ _ (OtherException 7)
              (@contact_step_inputs_reach world_append_crash
                 example_url initial_state _ _ _ eq_refl)
              eq_refl eq_refl eq_refl eq_refl eq_refl eq_refl
              eq_refl eq_refl eq_refl)
    as (st' & P & _ & _ & S & _).
  exists st'. split; [exact P|]. split; [|exact S].
  vm_compute in P. injection P as <-. reflexivity.
Defined.

(* ================================================================== *)
(** ** The contact finder's record, the reader's list, the publisher's
    verdict *)

Lemma sized_truthy v n : py_len v = Ret n -> truthy v = (0 <? n).
Proof.
  destruct v as [| | |s|l|f]; try discriminate; simpl;
    intros H; injection H as <-;
    [destruct s | destruct l | destruct f]; reflexivity.
Qed.

(** X8.  Every record the finder returns has an [emails] value that
    [len] accepts, and that value is truthy exactly when its length is
    positive: the test of step 5 never raises on it, and its second half
    is implied by the first.  The finder made one request, for the domain
    the record carries. *)
Theorem finder_record_is_sized W url st hd st' :
  find_contacts_hunter W url st = (Ret hd, st') ->
  (exists n, py_len (emails hd) = Ret n /\ truthy (emails hd) = (0 <? n)) /\
  st' = record_event (External (HunterSearch (domain hd)))
          (record_event (Enter ContactFinder) st).
Proof.
  intros H.
  destruct (find_contacts_domain _ _ _ H) as [parsed [P D]].
  split.
  - assert (L : exists n, py_len (emails hd) = Ret n).
    { revert H. unfold find_contacts_hunter, bind, enter. rewrite P.
      unfold try_except, hunter_lookup, bind, ext, lift. simpl.
      assert (F : forall e1 s,
                 match
                   (if is_Exception e1
                    then Some (hunter_fallback (Some (domain_of parsed)))
                    else None)
                 with
                 | Some h => h s
                 | None => (Raise e1, s)
                 end = (Ret hd, st') ->
                 exists n, py_len (emails hd) = Ret n).
      { intros e1 s. destruct (is_Exception e1); simpl; intros H;
          [injection H as <- _; exists 0; reflexivity | discriminate]. }
      destruct (answer W (trace st ++ [Enter ContactFinder])
                  (HunterSearch (domain_of parsed))) as [r|e]; simpl;
        [|apply F].
      destruct (raise_for_status r) as [[]|e1]; simpl; [|apply F].
      destruct (response_json r) as [data|e1]; simpl; [|apply F].
      destruct (dict_get data (py "data") JNull) as [d|e1]; simpl;
        [|apply F].
      destruct (truthy d); simpl;
        [|intros H; injection H as <- _; exists 0; reflexivity].
      destruct (dict_get d (py "emails") (JArr [])) as [es|e1]; simpl;
        [|apply F].
      destruct (dict_get d (py "organization") (JStr [])) as [org|e1]; simpl;
        [|apply F].
      destruct (py_len es) as [n|e1] eqn:Len; simpl; [|apply F].
      intros H; injection H as <- _. exists n. exact Len. }
    destruct L as [n L]. exists n. split; [exact L|].
    apply sized_truthy. exact L.
  - pose proof (find_contacts_request W url st P) as T.
    rewrite H in T. simpl in T. rewrite D. exact T.
Qed.

Lemma finder_record_is_sized_witness :
  exists n,
    py_len (JArr [one_email]) = Ret n /\ truthy (JArr [one_email]) = (0 <? n).
Proof.
  exact (proj1 (@finder_record_is_sized world_ok example_url initial_state
                  {| emails := JArr [one_email];
                     organization := JStr (py "Example");
                     domain := py "example.com" |} _ eq_refl)).
Defined.

(** X9.  Every URL the reader returns holds a character that is not
    whitespace, and the reader returns no more URLs than the sheet has rows
    after the first. *)
Theorem reader_urls_not_blank W st urls st' :
  read_company_urls_from_sheets W st = (Ret urls, st') ->
  Forall (fun u => forallb isspace u = false) urls /\
  match answer W (trace st ++ [Enter InputReader]) SheetsGet with
  | Ret (Some values) => (List.length urls <= List.length (tl values))%nat
  | _ => urls = []
  end.
Proof.
  unfold read_company_urls_from_sheets, bind, enter, try_except, ext.
  simpl.
  destruct (answer W (trace st ++ [Enter InputReader]) SheetsGet)
    as [[values|]|e]; simpl.
  - destruct values as [|first rest]; simpl; intros H; injection H as <- _.
    + split; [constructor | apply Nat.le_refl].
    + split.
      * apply Forall_forall. intros u Hu.
        apply in_map_iff in Hu. destruct Hu as [r [<- Hr]].
        apply filter_In in Hr. destruct Hr as [_ Hk].
        destruct r as [|cell r]; [discriminate|]. simpl in *.
        rewrite strip_truthy in Hk. apply negb_true_iff in Hk. exact Hk.
      * rewrite length_map. apply filter_length_le.
  - intros H. injection H as <- _. split; [constructor|reflexivity].
  - destruct (is_HttpError e); simpl; intros H;
      [injection H as <- _; split; [constructor|reflexivity] | discriminate].
Qed.

Lemma reader_urls_not_blank_witness :
  Forall (fun u => forallb isspace u = false) [py "https://example.org"].
Proof.
  exact (proj1 (@reader_urls_not_blank world_no_header initial_state
                  [py "https://example.org"] _ eq_refl)).
Defined.

(** The publisher, case by case. *)
Lemma create_gmail_draft_cases W to_email subject body st :
  create_gmail_draft W to_email subject body st =
  let msg := message_text W to_email subject body in
  let st1 := record_event (Enter DraftPublisher) st in
  let st2 := record_event (External (GmailCreateDraft msg)) st1 in
  if utf8_encodable msg then
    match answer W (trace st1) (GmailCreateDraft msg) with
    | Ret draft =>
        match subscript draft (py "id") with
        | Ret _ => (Ret true, st2)
        | Raise _ => (Ret false, st2)
        end
    | Raise e =>
        if is_Exception e then (Ret false, st2) else (Raise e, st2)
    end
  else (Ret false, st1).
Proof.
  unfold create_gmail_draft, bind, enter, try_except, ext, lift.
  cbv zeta.
  destruct (utf8_encodable (message_text W to_email subject body));
    [|reflexivity].
  cbn [fst snd].
  destruct (answer W (trace (record_event (Enter DraftPublisher) st))
              (GmailCreateDraft (message_text W to_email subject body)))
    as [draft|e].
  - destruct (subscript draft (py "id")) as [v|e] eqn:S.
    + reflexivity.
    + cbn [select_handler]. 
      assert (is_Exception e = true) as He.
      { pose proof (ordinary_subscript draft (py "id")) as O.
        rewrite S in O. exact O. }
      destruct (is_HttpError e); [reflexivity|]. rewrite He. reflexivity.
  - cbn [select_handler].
    destruct e; reflexivity.
Qed.


(* ================================================================== *)
(** ** The ledger of a run *)

Lemma books_ignore_trace e st : books_of (record_event e st) = books_of st.
Proof. reflexivity. Qed.

Lemma preserves_books_ext W (r : request) :
  is_append r = false -> preserves books_of (ext W r).
Proof.
  intros H st. unfold ext. destruct r; try reflexivity. discriminate.
Qed.

Lemma acts_bind_frame A B R (m : M A) (k : A -> M B) :
  preserves books_of m -> (forall a, acts R (k a)) -> acts R (bind m k).
Proof.
  intros Hm Hk st. unfold bind.
  specialize (Hm st). destruct (m st) as [[a|e] st1]; simpl in Hm.
  - specialize (Hk a st1). destruct (k a st1) as [[b|e] st2];
      rewrite <- Hm; exact Hk.
  - exact Hm.
Qed.

Lemma acts_errors : acts (effect false) (update_results incr_errors).
Proof. intro st. apply (effect_error false). Qed.

(** Lines 684-685: the success logger, then the counter. *)
Lemma acts_log_success W u e n :
  acts (effect false)
    (bind (update_success_log W u e n)
       (fun _ => update_results incr_successes)).
Proof.
  intro st.
  unfold update_success_log, bind, enter, try_except, ext. simpl.
  destruct (answer W (trace st ++ [Enter SuccessLogger])
              (SheetsAppend SuccessSheet (success_row u e n))) as [[]|x];
    simpl.
  - apply (effect_success false). right. eexists. reflexivity.
  - destruct (is_HttpError x); simpl; [|reflexivity].
    apply (effect_success false). left. reflexivity.
Qed.

(** Lines 695-696: the failure logger, then the counter. *)
Lemma acts_log_failure W d : acts (effect false) (not_found_branch W d).
Proof.
  intro st.
  unfold not_found_branch, log_failed_lookup, bind, enter, try_except, ext.
  simpl.
  destruct (answer W (trace st ++ [Enter FailureLogger])
              (SheetsAppend FailuresSheet [JStr d])) as [[]|x]; simpl.
  - apply (effect_failure false). right. eexists. reflexivity.
  - destruct (is_HttpError x); simpl; [|reflexivity].
    apply (effect_failure false). left. reflexivity.
Qed.

Lemma acts_then_processed A (m : M A) :
  acts (effect false) m ->
  acts (effect true) (bind m (fun _ => update_results incr_processed)).
Proof.
  intros Hm st. unfold bind. specialize (Hm st).
  destruct (m st) as [[a|e] st1]; [|exact Hm].
  change (effect true (books_of st)
            (incr_processed (results st1), logs st1)).
  unfold books_of in Hm at 2.
  remember (books_of st) as b eqn:Eb.
  remember (results st1, logs st1) as b1 eqn:E1.
  destruct Hm as [t sl fl sl' H | t sl fl fl' H | t sl fl];
    injection E1 as Er Es Ef; unfold logs; rewrite <- Er, <- Es, <- Ef.
  - apply (effect_success true). exact H.
  - apply (effect_failure true). exact H.
  - apply (effect_error true).
Qed.

Section Ledger.

Variable W : World.

Ltac books_frame :=
  first
    [ apply preserves_fetch | apply preserves_extract
    | apply preserves_summarize | apply preserves_find_contacts
    | apply preserves_body | apply preserves_subject
    | apply preserves_draft ];
  [ exact books_ignore_trace | exact (preserves_books_ext W) ].

Lemma acts_found_branch u s es org :
  acts (effect false) (found_branch W u s es org).
Proof.
  unfold found_branch.
  repeat first
    [ apply acts_errors | apply acts_log_success
    | apply acts_bind_frame; [first [books_frame | solve [frame]] | intro]
    | match goal with
      | |- acts _ (if ?b then _ else _) => destruct b
      | |- acts _ (let _ := _ in _) => cbv zeta
      end ].
Qed.

Lemma acts_contact_step u s hd : acts (effect true) (contact_step W u s hd).
Proof.
  unfold contact_step. cbv zeta.
  apply acts_bind_frame; [solve [frame]|intros found].
  apply acts_then_processed.
  destruct found; [apply acts_found_branch | apply acts_log_failure].
Qed.

Lemma acts_early_error :
  acts iteration_effect (update_results incr_errors).
Proof.
  intro st. right. split; [apply (effect_error false) | reflexivity].
Qed.

Lemma acts_company_body url : acts iteration_effect (company_body W url).
Proof.
  unfold company_body.
  apply acts_bind_frame; [books_frame|intros [[|c html]|]];
    try exact acts_early_error.
  apply acts_bind_frame; [books_frame|intros t].
  destruct (negb (str_truthy t)); [exact acts_early_error|].
  apply acts_bind_frame; [books_frame|intros s].
  destruct (negb (str_truthy s)); [exact acts_early_error|].
  apply acts_bind_frame; [books_frame|intros hd].
  intro st. pose proof (acts_contact_step url s hd st) as H.
  destruct (contact_step W url s hd st) as [[a|e] st1]; [|exact H].
  left. exact H.
Qed.

(** One iteration keeps the books: it returns with the effect of one
    classification, or is cut short by something that is not an
    [Exception]. *)
Lemma process_company_books url st :
  match process_company W url st with
  | (Ret _, st') => iteration_effect (books_of st) (books_of st')
  | (Raise e, _) => is_Exception e = false
  end.
Proof.
  unfold process_company, try_except.
  pose proof (acts_company_body url st) as H.
  destruct (company_body W url st) as [[[]|e] st1]; [exact H|].
  simpl. destruct (is_Exception e) eqn:E; [|exact E].
  simpl. right.
  change (books_of (set_results (incr_errors (results st1)) st1))
    with (incr_errors (results st1), logs st1).
  assert (Hr : results st1 = results st) by exact (f_equal fst H).
  assert (Hl : logs st1 = logs st) by exact (f_equal snd H).
  rewrite Hr, Hl. unfold books_of.
  split; [|reflexivity].
  destruct (logs st) as [sl fl]. apply (effect_error false).
Qed.

End Ledger.

Lemma balanced_refl b : balanced 0 b b.
Proof. unfold balanced. simpl. repeat split; lia. Qed.

Lemma length_grown (l l' : list row) :
  l' = l \/ (exists r, l' = l ++ [r]) ->
  (List.length l <= List.length l' <= List.length l + 1)%nat.
Proof.
  intros [->|[r ->]]; [lia|]. rewrite length_app. simpl. lia.
Qed.

Lemma balanced_step n b b1 b2 :
  iteration_effect b b1 -> balanced n b1 b2 -> balanced (S n) b b2.
Proof.
  intros H1 H2.
  unfold balanced in *. rewrite Nat2Z.inj_succ.
  destruct H1 as [E|[E T]].
  - destruct E as [t sl fl sl' G | t sl fl fl' G | t sl fl];
      try (apply length_grown in G); simpl in *; lia.
  - destruct E as [t sl fl sl' G | t sl fl fl' G | t sl fl];
      try (apply length_grown in G); simpl in *;
      try (apply (f_equal successes) in T; simpl in T; lia);
      try (apply (f_equal failures) in T; simpl in T; lia);
      lia.
Qed.

(** The loop keeps the books balanced for as long as it runs. *)
Lemma for_each_balanced W urls :
  forall st,
    match for_each W urls st with
    | (Ret _, st') =>
        balanced (List.length urls) (books_of st) (books_of st')
    | (Raise e, _) => is_Exception e = false
    end.
Proof.
  induction urls as [|url rest IH]; intros st.
  - apply balanced_refl.
  - simpl. unfold bind.
    pose proof (process_company_books W url st) as P.
    destruct (process_company W url st) as [[[]|e] st1]; [|exact P].
    specialize (IH st1).
    destruct (for_each W rest st1) as [[[]|e] st2]; [|exact IH].
    exact (balanced_step P IH).
Qed.

Lemma workflow_balanced W urls st t st' :
  outbound_sales_workflow W urls st = (Ret t, st') ->
  t = results st' /\
  balanced (List.length urls) (zero_tally, logs st) (books_of st').
Proof.
  unfold outbound_sales_workflow, bind, update_results.
  pose proof (for_each_balanced W urls (set_results zero_tally st)) as B.
  destruct (for_each W urls (set_results zero_tally st)) as [[[]|e] st1];
    [|discriminate].
  intros H. injection H as <- <-. split; [reflexivity|exact B].
Qed.

(** X11.  Whenever the campaign runner returns, its tally and the two logs
    are consistent: the three outcome counters add up to the number of
    URLs; [processed] lies between [successes + failures] and the sum of
    all three; and each log has grown by no more rows than its counter
    counts. *)
Theorem workflow_books_balance W urls st t st' :
  outbound_sales_workflow W urls st = (Ret t, st') ->
  0 <= successes t /\ 0 <= failures t /\ 0 <= errors t /\
  successes t + failures t + errors t = Z.of_nat (List.length urls) /\
  successes t + failures t <= processed t <=
    successes t + failures t + errors t /\
  (List.length (success_log st) <= List.length (success_log st'))%nat /\
  Z.of_nat (List.length (success_log st')) <=
    Z.of_nat (List.length (success_log st)) + successes t /\
  (List.length (failure_log st) <= List.length (failure_log st'))%nat /\
  Z.of_nat (List.length (failure_log st')) <=
    Z.of_nat (List.length (failure_log st)) + failures t.
Proof.
  intros H. destruct (@workflow_balanced W urls st t st' H) as [-> B].
  unfold balanced, books_of, logs in B. simpl in B.
  repeat split; lia.
Qed.

Lemma workflow_books_balance_witness :
  exists t st',
    outbound_sales_workflow world_append_rejected
      [example_url; unbalanced_url] initial_state = (Ret t, st') /\
    successes t + failures t <= processed t <=
      successes t + failures t + errors t /\
    Z.of_nat (List.length (success_log st')) <= 0 + successes t.
Proof.
  eexists. eexists. split; [reflexivity|].
  pose proof (@workflow_books_balance world_append_rejected
                [example_url; unbalanced_url] initial_state _ _ eq_refl)
    as (_ & _ & _ & _ & P & _ & S & _).
  split; [exact P | exact S].
Defined.

(** X12.  When URLs were read and the run returned, the exit status is 0
    exactly when some company ended as a success or a failure, and 1
    exactly when every company ended as an error: the [processed > 0] half
    of the script's test never decides. *)
Theorem exit_status_by_outcomes W st urls st1 t st2 :
  read_company_urls_from_sheets W st = (Ret urls, st1) ->
  urls <> [] ->
  outbound_sales_workflow W urls st1 = (Ret t, st2) ->
  (run_main W st = 0 <-> 0 < successes t + failures t) /\
  (run_main W st = 1 <-> errors t = Z.of_nat (List.length urls)).
Proof.
  intros Hr Hu Hw.
  pose proof (@workflow_books_balance W urls st1 t st2 Hw)
    as (Hs & Hf & He & Hsum & Hp & _).
  assert (E : run_main W st =
              if (0 <? processed t) &&
                 (errors t <? Z.of_nat (List.length urls))
              then 0 else 1).
  { unfold run_main, main, try_except, bind. rewrite Hr.
    destruct urls as [|u rest]; [congruence|]. rewrite Hw.
    destruct ((0 <? processed t) &&
              (errors t <? Z.of_nat (List.length (u :: rest))));
      reflexivity. }
  rewrite E.
  destruct (0 <? processed t) eqn:P;
    destruct (errors t <? Z.of_nat (List.length urls)) eqn:Q; simpl;
    try apply Z.ltb_lt in P; try apply Z.ltb_ge in P;
    try apply Z.ltb_lt in Q; try apply Z.ltb_ge in Q;
    split; split; intros; try lia; try discriminate.
Qed.

Lemma exit_status_by_outcomes_witness :
  (run_main world_no_email initial_state = 0 <-> 0 < 0 + 1) /\
  (run_main world_no_email initial_state = 1 <-> 0 = 1).
Proof.
  assert (N : [example_url] <> []) by discriminate.
  exact (@exit_status_by_outcomes world_no_email initial_state
           [example_url] _
           {| processed := 1; successes := 0; failures := 1; errors := 0 |}
           _ eq_refl N eq_refl).
Defined.

(* ================================================================== *)
(** ** Where an exception can come from *)

Section Provenance.

Variable W : World.

Lemma from_ret A (a : A) : raises_from W (ret a).
Proof. intros st e st' H; discriminate. Qed.

Lemma from_enter c : raises_from W (enter c).
Proof. intros st e st' H; discriminate. Qed.

Lemma from_update g : raises_from W (update_results g).
Proof. intros st e st' H; discriminate. Qed.

Lemma from_raise A (e : exn) :
  is_Exception e = true -> raises_from W (@raise A e).
Proof. intros He st e' st' H. injection H as <- _. auto. Qed.

Lemma from_lift A (o : outcome A) : ordinary o -> raises_from W (lift o).
Proof. intros Ho st e st' H. injection H as -> _. left. exact Ho. Qed.

Lemma from_ext r : raises_from W (ext W r).
Proof.
  intros st e st' H. right. exists (trace st), r.
  unfold ext in H.
  destruct r; try (injection H as H _; exact H).
  destruct (answer W (trace st) (SheetsAppend sh r)); [discriminate|].
  injection H as H _. rewrite H. reflexivity.
Qed.

Lemma from_bind A B (m : M A) (k : A -> M B) :
  raises_from W m -> (forall a, raises_from W (k a)) ->
  raises_from W (bind m k).
Proof.
  intros Hm Hk st e st' H. unfold bind in H.
  destruct (m st) as [[a|e1] st1] eqn:E.
  - exact (Hk a st1 e st' H).
  - injection H as <- <-. exact (Hm st e1 st1 E).
Qed.

Lemma from_try A (body : M A) hs :
  raises_from W body ->
  Forall (fun h => raises_from W (snd h)) hs ->
  raises_from W (try_except body hs).
Proof.
  intros Hb Hh st e st' H. unfold try_except in H.
  destruct (body st) as [[a|e1] st1] eqn:E; [discriminate|].
  destruct (select_handler e1 hs) as [h|] eqn:S.
  - assert (Hp : raises_from W h).
    { clear -S Hh. induction Hh as [|[cls h'] hs' H0 _ IH]; simpl in S.
      - discriminate.
      - destruct (cls e1); [injection S as <-; exact H0 | exact (IH S)]. }
    exact (Hp st1 e st' H).
  - injection H as <- <-. exact (Hb st e1 st1 E).
Qed.

Ltac provenance :=
  repeat first
    [ apply from_bind; [|intro]
    | apply from_try
    | apply from_ret
    | apply from_enter
    | apply from_update
    | apply from_ext
    | apply from_raise; reflexivity
    | apply from_lift; solve [auto with ordinary]
    | match goal with
      | |- Forall _ _ => constructor
      | |- raises_from _ (snd _) => simpl snd
      | |- raises_from _ (if ?b then _ else _) => destruct b
      | |- raises_from _ (let _ := _ in _) => cbv zeta
      | |- raises_from _ (match ?x with _ => _ end) => destruct x
      end ].

Lemma from_find_contacts url : raises_from W (find_contacts_hunter W url).
Proof.
  unfold find_contacts_hunter, hunter_lookup, hunter_fallback.
  destruct (urlparse (netloc_valid W) url) as [parsed|e] eqn:E.
  - provenance.
  - apply urlparse_raises in E. subst e. provenance.
Qed.

Lemma from_company_body url : raises_from W (company_body W url).
Proof.
  unfold company_body.
  apply from_bind;
    [unfold fetch_website_content; provenance|intros [[|c html]|]];
    try apply from_update.
  apply from_bind; [unfold extract_text_from_html; provenance|intros t].
  destruct (negb (str_truthy t)); [apply from_update|].
  apply from_bind; [unfold summarize_company; provenance|intros s].
  destruct (negb (str_truthy s)); [apply from_update|].
  apply from_bind; [apply from_find_contacts|intros hd].
  unfold contact_step, found_branch, not_found_branch,
    generate_email_body, generate_email_subject, create_gmail_draft,
    update_success_log, log_failed_lookup.
  provenance.
Qed.

Lemma from_for_each urls : raises_from W (for_each W urls).
Proof.
  induction urls as [|url rest IH]; simpl.
  - apply from_ret.
  - apply from_bind; [|intros _; exact IH].
    unfold process_company. apply from_try; [apply from_company_body|].
    constructor; [exact (@from_update incr_errors) | constructor].
Qed.

Lemma from_workflow urls : raises_from W (outbound_sales_workflow W urls).
Proof.
  unfold outbound_sales_workflow.
  apply from_bind; [apply from_update|intros _].
  apply from_bind; [apply from_for_each|intros _].
  intros st e st' H. discriminate.
Qed.

Lemma from_reader : raises_from W (read_company_urls_from_sheets W).
Proof. unfold read_company_urls_from_sheets. provenance. Qed.

End Provenance.

(** X13.  The script always ends by [sys.exit]: it never falls off its
    end and no exception escapes it.  The status is 0, 1 or 130, unless a
    service itself raised [SystemExit] with another status. *)
Theorem script_exit_statuses W st :
  exists code st',
    main W st = (Raise (SystemExit code), st') /\
    run_main W st = code /\
    (code = 0 \/ code = 1 \/ code = 130 \/
     exists history r, answer W history r = Raise (SystemExit code)).
Proof.
  assert (Handle : forall e s,
            is_Exception e = true \/
            (exists history r, answer W history r = Raise e) ->
            exists code,
              match
                select_handler e
                  [(is_KeyboardInterrupt, @raise unit (SystemExit 130));
                   (is_Exception, raise (SystemExit 1))]
              with
              | Some h => h s
              | None => (Raise e, s)
              end = (Raise (SystemExit code), s) /\
              (code = 0 \/ code = 1 \/ code = 130 \/
               exists history r,
                 answer W history r = Raise (SystemExit code))).
  { intros e s He. destruct e; simpl;
      try (exists 1; split; [reflexivity|auto]; fail).
    - exists 130. split; [reflexivity|auto].
    - exists code. split; [reflexivity|].
      destruct He as [He|He]; [discriminate|auto]. }
  assert (Fin : forall code st',
            main W st = (Raise (SystemExit code), st') ->
            run_main W st = code).
  { intros code st' H. unfold run_main. rewrite H. reflexivity. }
  assert (Goal : exists code st',
            main W st = (Raise (SystemExit code), st') /\
            (code = 0 \/ code = 1 \/ code = 130 \/
             exists history r,
               answer W history r = Raise (SystemExit code))).
  { unfold main, try_except, bind.
    destruct (read_company_urls_from_sheets W st) as [[urls|e] st1] eqn:R.
    - destruct urls as [|u rest].
      + exists 1, st1. simpl. auto.
      + destruct (outbound_sales_workflow W (u :: rest) st1)
          as [[t|e] st2] eqn:Wf.
        * destruct ((0 <? processed t) &&
                    (errors t <? Z.of_nat (List.length (u :: rest))));
            [exists 0, st2 | exists 1, st2]; simpl; auto.
        * destruct (Handle e st2 (@from_workflow W _ _ _ _ Wf)) as [code [H C]].
          exists code, st2. auto.
    - destruct (Handle e st1 (@from_reader W _ _ _ R)) as [code [H C]].
      exists code, st1. auto. }
  destruct Goal as (code & st' & H & C).
  exists code, st'. split; [exact H|]. split; [exact (Fin _ _ H)|exact C].
Qed.

(* ================================================================== *)
(** ** The message the publisher builds *)

Lemma split_on_past (sep' p s : pystr) :
  forallb (fun c => negb (c =? 13)%N) p = true ->
  split_on (13%N :: sep') (p ++ s) =
  match split_on (13%N :: sep') s with
  | Some (a, b) => Some (p ++ a, b)
  | None => None
  end.
Proof.
  intros H. induction p as [|c p IH].
  - simpl. destruct (split_on (13%N :: sep') s) as [[a b]|]; reflexivity.
  - simpl in H. apply andb_prop in H. destruct H as [Hc Hp].
    apply negb_true_iff in Hc.
    change ((c :: p) ++ s) with (c :: (p ++ s)).
    cbn [split_on starts_with]. rewrite N.eqb_sym, Hc. cbn [andb].
    rewrite (IH Hp).
    destruct (split_on (13%N :: sep') s) as [[a b]|]; reflexivity.
Qed.

Lemma one_line_no_cr (s : pystr) :
  one_line s = true -> forallb (fun c => negb (c =? 13)%N) s = true.
Proof.
  unfold one_line. induction s as [|c s IH]; [reflexivity|]. simpl.
  intros H. apply andb_prop in H. destruct H as [Hc Hs].
  rewrite (IH Hs), andb_true_r.
  destruct (c =? 13)%N; [discriminate|reflexivity].
Qed.

(** X14.  When neither the recipient nor the subject holds a line break,
    the message has exactly the two header lines [To:] and [Subject:]
    before its first blank line, and everything after that blank line is
    the body as it was passed in, whatever the body contains. *)
Theorem message_splits_into_headers_and_body W to_email subject body :
  one_line (py_str W to_email) = true ->
  one_line subject = true ->
  split_on (crlf ++ crlf) (message_text W to_email subject body) =
  Some (py "To: " ++ py_str W to_email ++ crlf ++ py "Subject: " ++ subject,
        body).
Proof.
  intros Ht Hs. apply one_line_no_cr in Ht. apply one_line_no_cr in Hs.
  unfold message_text.
  change (crlf ++ crlf) with (13%N :: [10; 13; 10]%N).
  rewrite (app_assoc (py "To: ") (py_str W to_email)).
  rewrite split_on_past
    by (rewrite forallb_app, Ht; reflexivity).
  change (crlf ++ py "Subject: " ++ subject ++ crlf ++ crlf ++ body)
    with (13%N :: 10%N :: (py "Subject: " ++ subject ++ crlf ++ crlf ++ body)).
  cbn [split_on]. 
  change (starts_with (13%N :: [10; 13; 10]%N)
            (13%N :: 10%N ::
             py "Subject: " ++ subject ++ crlf ++ crlf ++ body))
    with false.
  change (starts_with (13%N :: [10; 13; 10]%N)
            (10%N :: py "Subject: " ++ subject ++ crlf ++ crlf ++ body))
    with false.
  rewrite (app_assoc (py "Subject: ") subject).
  rewrite split_on_past
    by (rewrite forallb_app, Hs; reflexivity).
  change (crlf ++ crlf ++ body) with ((13%N :: [10; 13; 10]%N) ++ body).
  assert (E : split_on (13%N :: [10; 13; 10]%N)
                ((13%N :: [10; 13; 10]%N) ++ body) = Some ([], body))
    by reflexivity.
  rewrite E. rewrite app_nil_r.
  rewrite <- !app_assoc. reflexivity.
Qed.

Lemma message_splits_into_headers_and_body_witness :
  split_on (crlf ++ crlf)
    (message_text world_ok (JStr (py "a@x.com")) (py "Hello")
       (py "Dear A," ++ crlf ++ crlf ++ py "Best")) =
  Some (py "To: a@x.com" ++ crlf ++ py "Subject: Hello",
        py "Dear A," ++ crlf ++ crlf ++ py "Best").
Proof.
  exact (@message_splits_into_headers_and_body world_ok
           (JStr (py "a@x.com")) (py "Hello")
           (py "Dear A," ++ crlf ++ crlf ++ py "Best") eq_refl eq_refl).
Defined.

(* ================================================================== *)
(** ** Start-up *)

Lemma getenv_set_true env k :
  getenv_set env k = true <-> exists c s, env k = Some (c :: s).
Proof.
  unfold getenv_set. destruct (env k) as [[|c s]|]; split;
    try discriminate; try (intros [c' [s' E]]; discriminate).
  - intros _. eauto.
  - reflexivity.
Qed.

Lemma getenv_set_false env k :
  getenv_set env k = false <-> env k = None \/ env k = Some [].
Proof.
  unfold getenv_set. destruct (env k) as [[|c s]|]; split; auto;
    try discriminate; intros [E|E]; discriminate.
Qed.

(** X15.  The environment check passes exactly when each of the three
    required variables is set to a non-empty string; a variable that is
    unset, or set to the empty string, makes it exit with status 1, and
    start-up then ends there without touching the token or the client
    secrets. *)
Theorem environment_check env :
  (validate_environment env = Ret tt <->
   forall var, In var required_vars -> exists c s, env var = Some (c :: s)) /\
  (validate_environment env = Raise (SystemExit 1) <->
   exists var, In var required_vars /\ (env var = None \/ env var = Some [])) /\
  (forall H tr,
      getenv H = env ->
      validate_environment env = Raise (SystemExit 1) ->
      start_up H tr = (Raise (SystemExit 1), tr)).
Proof.
  assert (A : missing_vars env = [] <->
              forall var, In var required_vars -> getenv_set env var = true).
  { unfold missing_vars. split.
    - intros E var Hv.
      destruct (getenv_set env var) eqn:G; [reflexivity|].
      assert (I : In var (filter (fun v => negb (getenv_set env v))
                            required_vars))
        by (apply filter_In; rewrite G; auto).
      rewrite E in I. destruct I.
    - intros F.
      destruct (filter (fun v => negb (getenv_set env v)) required_vars)
        as [|v l] eqn:E; [reflexivity|].
      assert (I : In v (v :: l)) by (left; reflexivity).
      rewrite <- E in I. apply filter_In in I. destruct I as [I G].
      rewrite (F v I) in G. discriminate. }
  split; [|split].
  - unfold validate_environment.
    destruct (missing_vars env) as [|v l] eqn:E.
    + split; [|reflexivity]. intros _ var Hv.
      apply getenv_set_true. apply (proj1 A eq_refl var Hv).
    + split; [discriminate|]. intros F.
      assert (N : v :: l = []).
      { apply A. intros var Hv. apply getenv_set_true. exact (F var Hv). }
      discriminate.
  - unfold validate_environment.
    destruct (missing_vars env) as [|v l] eqn:E.
    + split; [discriminate|]. intros [var [Hv G]].
      apply getenv_set_false in G.
      rewrite (proj1 A eq_refl var Hv) in G. discriminate.
    + split; [|reflexivity]. intros _. exists v.
      assert (I : In v (missing_vars env)) by (rewrite E; left; reflexivity).
      unfold missing_vars in I. apply filter_In in I. destruct I as [I G].
      split; [exact I|]. apply getenv_set_false.
      apply negb_true_iff. exact G.
  - intros H tr <- E. unfold start_up, hbind, hcall_free. rewrite E.
    reflexivity.
Qed.

Section Credentials.

Variable H : Host.

Lemma stored_credentials_cases tr :
  (token_file_exists H = false /\
   stored_credentials H tr = (Ret None, tr)) \/
  (token_file_exists H = true /\
   match load_token H with
   | Ret c => stored_credentials H tr = (Ret (Some c), tr ++ [LoadToken])
   | Raise e =>
       stored_credentials H tr =
       (if is_Exception e then Ret None else Raise e, tr ++ [LoadToken])
   end).
Proof.
  unfold stored_credentials, htry, hbind, hcall, hret.
  destruct (token_file_exists H); [right|left; auto].
  split; [reflexivity|].
  destruct (load_token H) as [c|e]; [reflexivity|].
  destruct (is_Exception e); reflexivity.
Qed.

(** X16.  [get_google_credentials] never returns [None] and never raises
    an [Exception].  What it returns is a stored token that is valid, a
    stored token that is invalid but could not be refreshed (not expired,
    or without a refresh token), the outcome of a refresh, or the outcome
    of a local-server flow whose token file was written.  What it raises
    is [SystemExit(1)] or an interrupt that the host raised. *)
Theorem credentials_outcomes tr :
  match fst (get_google_credentials H tr) with
  | Ret (Some c) => credential_origin H c
  | Ret None => False
  | Raise e =>
      e = SystemExit 1 \/
      is_Exception e = false /\
      (load_token H = Raise e \/ (exists c, refresh H c = Raise e) \/
       client_secrets H = Raise e \/
       (exists b, run_local_server H b = Raise e) \/
       (exists j, write_token H j = Raise e))
  end.
Proof.
  assert (Auth : forall tr1,
            match fst (authorised H None tr1) with
            | Ret (Some c) => credential_origin H c
            | Ret None => False
            | Raise e =>
                e = SystemExit 1 \/
                is_Exception e = false /\
                (load_token H = Raise e \/
                 (exists c, refresh H c = Raise e) \/
                 client_secrets H = Raise e \/
                 (exists b, run_local_server H b = Raise e) \/
                 (exists j, write_token H j = Raise e))
            end).
  { intros tr1. unfold authorised, htry, hbind, hcall, hret, hraise.
    destruct (credentials_file_exists H); simpl; [|left; reflexivity].
    destruct (client_secrets H) as [[]|e] eqn:Cs; simpl.
    - destruct (run_local_server H (flow_opens_browser H)) as [c|e] eqn:Fl;
        simpl.
      + destruct (write_token H (to_json c)) as [[]|e] eqn:Wr; simpl.
        * apply from_flow; assumption.
        * destruct (is_Exception e) eqn:E; simpl; [left; reflexivity|].
          right. split; [exact E|]. do 4 right. eauto.
      + destruct (is_Exception e) eqn:E; simpl; [left; reflexivity|].
        right. split; [exact E|]. do 3 right. left. eauto.
    - destruct (is_Exception e) eqn:E; simpl; [left; reflexivity|].
      right. split; [exact E|]. auto. }
  unfold get_google_credentials, hbind.
  destruct (stored_credentials_cases tr) as [[_ ->]|[_ S]].
  - simpl. apply Auth.
  - destruct (load_token H) as [c|e] eqn:L; rewrite S.
    + destruct (valid c) eqn:V; simpl.
      * apply stored_valid; assumption.
      * unfold refreshed, htry, hbind, hcall, hret.
        destruct (expired c && refresh_token c) eqn:X; simpl.
        -- destruct (refresh H c) as [c'|e] eqn:R; simpl.
           ++ eapply from_refresh; eassumption.
           ++ destruct (is_Exception e) eqn:E; simpl; [apply Auth|].
              right. split; [exact E|]. right. left. eauto.
        -- apply stored_unrefreshable; assumption.
    + destruct (is_Exception e) eqn:E; simpl; [apply Auth|].
      right. split; [exact E|]. auto.
Qed.

(** X17.  A stored token that is not valid and cannot be refreshed (it is
    not expired, or has no refresh token) is handed back as it is: no
    refresh, no OAuth flow, nothing written. *)
Theorem unrefreshable_token_is_returned tr c :
  token_file_exists H = true ->
  load_token H = Ret c ->
  valid c = false ->
  expired c && refresh_token c = false ->
  get_google_credentials H tr = (Ret (Some c), tr ++ [LoadToken]).
Proof.
  intros T L V X.
  unfold get_google_credentials, hbind.
  destruct (stored_credentials_cases tr) as [[F _]|[_ S]]; [congruence|].
  rewrite L in S. rewrite S. rewrite V. simpl.
  unfold refreshed, hret. rewrite X. reflexivity.
Qed.

(** X18.  A stored token that is expired and has a refresh token is
    refreshed once; when the refresh goes through, its outcome is returned
    without its validity being looked at and without the token file being
    written again. *)
Theorem refreshed_token_is_not_saved tr c c' :
  token_file_exists H = true ->
  load_token H = Ret c ->
  valid c = false ->
  expired c && refresh_token c = true ->
  refresh H c = Ret c' ->
  get_google_credentials H tr =
  (Ret (Some c'), tr ++ [LoadToken; RefreshToken c]).
Proof.
  intros T L V X R.
  unfold get_google_credentials, hbind.
  destruct (stored_credentials_cases tr) as [[F _]|[_ S]]; [congruence|].
  rewrite L in S. rewrite S. rewrite V. simpl.
  unfold refreshed, htry, hbind, hcall, hret. rewrite X, R. simpl.
  rewrite <- app_assoc. reflexivity.
Qed.

End Credentials.

Lemma unrefreshable_token_is_returned_witness :
  get_google_credentials (host_with (Ret stale_token) true) [] =
  (Ret (Some stale_token), [LoadToken]) /\
  valid stale_token = false.
Proof.
  split; [|reflexivity].
  exact (@unrefreshable_token_is_returned
           (host_with (Ret stale_token) true) [] stale_token
           eq_refl eq_refl eq_refl eq_refl).
Defined.

Lemma refreshed_token_is_not_saved_witness :
  get_google_credentials host_refreshing [] =
  (Ret (Some stale_token), [LoadToken; RefreshToken expired_token]) /\
  valid stale_token = false.
Proof.
  split; [|reflexivity].
  exact (@refreshed_token_is_not_saved host_refreshing [] expired_token
           stale_token eq_refl eq_refl eq_refl eq_refl eq_refl).
Defined.

Ltac find_write I :=
  repeat (apply in_app_or in I; destruct I as [I|I]);
  try (left; exact I);
  try (simpl in I; destruct I as [I|I]; [discriminate I|destruct I]).

(** X19.  The token file is only ever written at the end of an OAuth
    flow, with the JSON of the credentials the local server has just
    returned: never after loading or refreshing a stored token, and never
    when the client secrets are missing or unreadable. *)
Theorem token_file_written_only_by_flow (H : Host) tr j :
  In (WriteToken j) (snd (get_google_credentials H tr)) ->
  In (WriteToken j) tr \/
  exists c,
    credentials_file_exists H = true /\
    client_secrets H = Ret tt /\
    run_local_server H (flow_opens_browser H) = Ret c /\
    j = to_json c.
Proof.
  assert (Auth : forall tr1,
            In (WriteToken j) (snd (authorised H None tr1)) ->
            In (WriteToken j) tr1 \/
            exists c,
              credentials_file_exists H = true /\
              client_secrets H = Ret tt /\
              run_local_server H (flow_opens_browser H) = Ret c /\
              j = to_json c).
  { intros tr1. unfold authorised, htry, hbind, hcall, hret, hraise.
    destruct (credentials_file_exists H) eqn:Cf; simpl; [|auto].
    destruct (client_secrets H) as [[]|e] eqn:Cs; simpl.
    - destruct (run_local_server H (flow_opens_browser H)) as [c|e] eqn:Fl;
        simpl.
      + assert (G : In (WriteToken j)
                      (((tr1 ++ [LoadClientSecrets]) ++
                        [RunLocalServer (flow_opens_browser H)]) ++
                       [WriteToken (to_json c)]) ->
                    In (WriteToken j) tr1 \/
                    exists c0,
                      true = true /\ Ret tt = Ret tt /\
                      Ret c = Ret c0 /\ j = to_json c0).
        { intros I.
          repeat (apply in_app_or in I; destruct I as [I|I]);
            try (left; exact I);
            simpl in I; destruct I as [I|[]]; try discriminate I.
          injection I as <-. right. exists c. auto. }
        destruct (write_token H (to_json c)) as [[]|e]; simpl;
          [exact G|]. destruct (is_Exception e); exact G.
      + destruct (is_Exception e); simpl; intros I; find_write I.
    - destruct (is_Exception e); simpl; intros I; find_write I. }
  assert (Skip : In (WriteToken j) (tr ++ [LoadToken]) ->
                 In (WriteToken j) tr)
    by (intros I; apply in_app_or in I; destruct I as [I|[I|[]]];
        [exact I | discriminate I]).
  assert (Skip2 : forall c, In (WriteToken j)
                              ((tr ++ [LoadToken]) ++ [RefreshToken c]) ->
                            In (WriteToken j) tr)
    by (intros c I; apply in_app_or in I; destruct I as [I|[I|[]]];
        [exact (Skip I) | discriminate I]).
  unfold get_google_credentials, hbind.
  destruct (stored_credentials_cases H tr) as [[_ ->]|[_ S]].
  - simpl. apply Auth.
  - destruct (load_token H) as [c|e]; rewrite S.
    + destruct (valid c); simpl; [intros I; left; exact (Skip I)|].
      unfold refreshed, htry, hbind, hcall, hret.
      destruct (expired c && refresh_token c); simpl;
        [|intros I; left; exact (Skip I)].
      destruct (refresh H c) as [c'|e]; simpl;
        [intros I; left; exact (Skip2 _ I)|].
      destruct (is_Exception e); simpl.
      * intros I. destruct (Auth _ I) as [I'|E]; [left; exact (Skip2 _ I')|].
        right. exact E.
      * intros I; left; exact (Skip2 _ I).
    + destruct (is_Exception e); simpl.
      * intros I. destruct (Auth _ I) as [I'|E]; [left; exact (Skip I')|].
        right. exact E.
      * intros I; left; exact (Skip I).
Qed.

Lemma token_file_written_only_by_flow_witness :
  snd (get_google_credentials (host_with (Raise ValueError) true) []) =
    [LoadToken; LoadClientSecrets; RunLocalServer false;
     WriteToken (py "{}")] /\
  exists c,
    run_local_server (host_with (Raise ValueError) true) false = Ret c /\
    py "{}" = to_json c.
Proof.
  split; [reflexivity|].
  destruct (@token_file_written_only_by_flow
              (host_with (Raise ValueError) true) [] (py "{}"))
    as [[]|(c & _ & _ & R & J)].
  - simpl. auto.
  - exists c. split; [exact R | exact J].
Defined.

(* ================================================================== *)
(** ** The raw field of a draft *)

Ltac Zify.zify_post_hook ::= Z.to_euclidean_division_equations.

Ltac decide_test :=
  match goal with
  | |- context [(?a <? ?b)%N] => destruct (N.ltb_spec a b)
  | |- context [(?a <=? ?b)%N] => destruct (N.leb_spec a b)
  | |- context [(?a =? ?b)%N] => destruct (N.eqb_spec a b)
  end; cbv iota beta; cbn [andb orb negb].

Ltac decide_tests := repeat decide_test.

Lemma b64_char_cases (n : N) :
  (n < 64)%N ->
  ((n < 26)%N /\ b64_char n = (65 + n)%N) \/
  ((26 <= n < 52)%N /\ b64_char n = (71 + n)%N) \/
  ((52 <= n < 62)%N /\ b64_char n = (n - 4)%N) \/
  (n = 62%N /\ b64_char n = 45%N) \/
  (n = 63%N /\ b64_char n = 95%N).
Proof.
  intros H. unfold b64_char.
  destruct (N.ltb_spec n 26); [left; auto|].
  destruct (N.ltb_spec n 52); [right; left; auto|].
  destruct (N.ltb_spec n 62); [right; right; left; auto|].
  destruct (N.eqb_spec n 62); [right; right; right; left; auto|].
  right; right; right; right. split; [lia|reflexivity].
Qed.

Ltac by_b64_case n H :=
  destruct (@b64_char_cases n H)
    as [[? ->]|[[? ->]|[[? ->]|[[? ->]|[? ->]]]]].

Lemma b64_value_char (n : N) :
  (n < 64)%N -> b64_value (b64_char n) = Some n.
Proof.
  intros H. by_b64_case n H; unfold b64_value; decide_tests;
    try (f_equal; lia); try lia; subst; try reflexivity.
Qed.

Lemma b64_char_not_pad (n : N) : (n < 64)%N -> (b64_char n =? 61)%N = false.
Proof.
  intros H. by_b64_case n H; apply N.eqb_neq; lia.
Qed.

Lemma b64_char_url_safe (n : N) : (n < 64)%N -> url_safe (b64_char n) = true.
Proof.
  intros H. by_b64_case n H;
    unfold url_safe, is_alpha_ascii, is_digit_ascii; decide_tests;
    try reflexivity; lia.
Qed.

Lemma b64_group3 (a b c : N) (rest : list N) :
  is_byte a -> is_byte b -> is_byte c ->
  urlsafe_b64decode (urlsafe_b64encode (a :: b :: c :: rest)) =
  option_map (fun r => a :: b :: c :: r)
    (urlsafe_b64decode (urlsafe_b64encode rest)).
Proof.
  unfold is_byte. intros Ha Hb Hc.
  cbn [urlsafe_b64encode urlsafe_b64decode].
  rewrite !b64_value_char by lia.
  rewrite (@b64_char_not_pad ((b mod 16) * 4 + c / 64)%N) by lia.
  rewrite (@b64_char_not_pad (c mod 64)%N) by lia.
  cbn [andb].
  replace (a / 4 * 4 + ((a mod 4) * 16 + b / 16) / 16)%N with a by lia.
  replace ((((a mod 4) * 16 + b / 16) mod 16) * 16 +
           ((b mod 16) * 4 + c / 64) / 4)%N with b by lia.
  replace ((((b mod 16) * 4 + c / 64) mod 4) * 64 + c mod 64)%N
    with c by lia.
  reflexivity.
Qed.

Lemma b64_group2 (a b : N) :
  is_byte a -> is_byte b ->
  urlsafe_b64decode (urlsafe_b64encode [a; b]) = Some [a; b].
Proof.
  unfold is_byte. intros Ha Hb.
  cbn [urlsafe_b64encode urlsafe_b64decode].
  rewrite !b64_value_char by lia.
  rewrite (@b64_char_not_pad ((b mod 16) * 4)%N) by lia.
  cbn [andb]. rewrite N.eqb_refl.
  replace (a / 4 * 4 + ((a mod 4) * 16 + b / 16) / 16)%N with a by lia.
  replace ((((a mod 4) * 16 + b / 16) mod 16) * 16 +
           ((b mod 16) * 4) / 4)%N with b by lia.
  reflexivity.
Qed.

Lemma b64_group1 (a : N) :
  is_byte a -> urlsafe_b64decode (urlsafe_b64encode [a]) = Some [a].
Proof.
  unfold is_byte. intros Ha.
  cbn [urlsafe_b64encode urlsafe_b64decode].
  rewrite !b64_value_char by lia.
  rewrite !N.eqb_refl. cbn [andb].
  replace (a / 4 * 4 + ((a mod 4) * 16) / 16)%N with a by lia.
  reflexivity.
Qed.

(** Decoding undoes the base64 encoding of any bytes. *)
Lemma b64_round_trip (bs : list N) :
  Forall is_byte bs -> urlsafe_b64decode (urlsafe_b64encode bs) = Some bs.
Proof.
  assert (G : forall n bs, (List.length bs <= n)%nat -> Forall is_byte bs ->
                urlsafe_b64decode (urlsafe_b64encode bs) = Some bs).
  { induction n as [|n IH]; intros l Hl Hb.
    - destruct l; [reflexivity|simpl in Hl; lia].
    - destruct l as [|a [|b [|c rest]]]; [reflexivity| | |].
      + inversion Hb; subst. apply b64_group1; assumption.
      + inversion Hb as [|? ? Ha Hb']; subst.
        inversion Hb' as [|? ? Hb2 _]; subst.
        apply b64_group2; assumption.
      + inversion Hb as [|? ? Ha Hb']; subst.
        inversion Hb' as [|? ? Hb2 Hb'']; subst.
        inversion Hb'' as [|? ? Hc Hr]; subst.
        rewrite b64_group3 by assumption.
        rewrite (IH rest); [reflexivity| |exact Hr].
        simpl in Hl. lia. }
  intros H. exact (G (List.length bs) bs (Nat.le_refl _) H).
Qed.

(** The encoded text is made of URL-safe characters and comes in groups
    of four. *)
Lemma b64_shape (bs : list N) :
  Forall is_byte bs ->
  forallb url_safe (urlsafe_b64encode bs) = true /\
  List.length (urlsafe_b64encode bs) = (4 * ((List.length bs + 2) / 3))%nat.
Proof.
  assert (G : forall n bs, (List.length bs <= n)%nat -> Forall is_byte bs ->
                forallb url_safe (urlsafe_b64encode bs) = true /\
                List.length (urlsafe_b64encode bs) =
                (4 * ((List.length bs + 2) / 3))%nat).
  { unfold is_byte.
    induction n as [|n IH]; intros l Hl Hb.
    - destruct l; [split; reflexivity|simpl in Hl; lia].
    - destruct l as [|a [|b [|c rest]]]; [split; reflexivity| | |].
      + inversion Hb; subst. split; [|reflexivity].
        cbn [urlsafe_b64encode forallb].
        rewrite !b64_char_url_safe by lia. reflexivity.
      + inversion Hb as [|? ? Ha Hb']; subst.
        inversion Hb' as [|? ? Hb2 _]; subst. split; [|reflexivity].
        cbn [urlsafe_b64encode forallb].
        rewrite !b64_char_url_safe by lia. reflexivity.
      + inversion Hb as [|? ? Ha Hb']; subst.
        inversion Hb' as [|? ? Hb2 Hb'']; subst.
        inversion Hb'' as [|? ? Hc Hr]; subst.
        destruct (IH rest) as [Hs L]; [simpl in Hl; lia|exact Hr|].
        split.
        * cbn [urlsafe_b64encode forallb].
          rewrite !b64_char_url_safe by lia. exact Hs.
        * cbn [urlsafe_b64encode List.length]. rewrite L.
          replace (S (S (S (List.length rest))) + 2)%nat
            with (List.length rest + 2 + 1 * 3)%nat by lia.
          rewrite Nat.div_add by lia. lia. }
  intros H. exact (G (List.length bs) bs (Nat.le_refl _) H).
Qed.

(** One step of the decoder. *)
Lemma utf8_decode_step (b0 : N) (r0 : list N) :
  utf8_decode (b0 :: r0) =
  (if b0 <? 128 then option_map (cons b0) (utf8_decode r0)
   else if b0 <? 224 then
     match r0 with
     | b1 :: r1 =>
         let c := (b0 - 192) * 64 + (b1 - 128) in
         if (192 <=? b0) && continuation b1 && (128 <=? c)
         then option_map (cons c) (utf8_decode r1)
         else None
     | _ => None
     end
   else if b0 <? 240 then
     match r0 with
     | b1 :: b2 :: r2 =>
         let c := (b0 - 224) * 4096 + (b1 - 128) * 64 + (b2 - 128) in
         if continuation b1 && continuation b2 && (2048 <=? c) &&
            negb ((55296 <=? c) && (c <=? 57343))
         then option_map (cons c) (utf8_decode r2)
         else None
     | _ => None
     end
   else
     match r0 with
     | b1 :: b2 :: b3 :: r3 =>
         let c := (b0 - 240) * 262144 + (b1 - 128) * 4096 +
                  (b2 - 128) * 64 + (b3 - 128) in
         if (b0 <? 248) && continuation b1 && continuation b2 &&
            continuation b3 && (65536 <=? c) && (c <? 1114112)
         then option_map (cons c) (utf8_decode r3)
         else None
     | _ => None
     end)%N.
Proof. reflexivity. Qed.

Ltac decided :=
  repeat match goal with
    | |- context [(?a <? ?b)%N] =>
        first [ replace (a <? b)%N with true by (symmetry; apply N.ltb_lt; lia)
              | replace (a <? b)%N with false by (symmetry; apply N.ltb_ge; lia) ]
    | |- context [(?a <=? ?b)%N] =>
        first [ replace (a <=? b)%N with true by (symmetry; apply N.leb_le; lia)
              | replace (a <=? b)%N with false by (symmetry; apply N.leb_gt; lia) ]
    end.

Lemma utf8_decode_two (b0 b1 : N) (rest : list N) :
  (192 <= b0 < 224)%N -> (128 <= b1 < 192)%N ->
  (128 <= (b0 - 192) * 64 + (b1 - 128))%N ->
  utf8_decode (b0 :: b1 :: rest) =
  option_map (cons ((b0 - 192) * 64 + (b1 - 128))%N) (utf8_decode rest).
Proof.
  intros H0 H1 Hc. rewrite utf8_decode_step. cbv zeta. unfold continuation.
  decided. reflexivity.
Qed.

Lemma utf8_decode_three (b0 b1 b2 : N) (rest : list N) :
  (224 <= b0 < 240)%N -> (128 <= b1 < 192)%N -> (128 <= b2 < 192)%N ->
  (2048 <= (b0 - 224) * 4096 + (b1 - 128) * 64 + (b2 - 128))%N ->
  ((b0 - 224) * 4096 + (b1 - 128) * 64 + (b2 - 128) < 55296 \/
   57343 < (b0 - 224) * 4096 + (b1 - 128) * 64 + (b2 - 128))%N ->
  utf8_decode (b0 :: b1 :: b2 :: rest) =
  option_map (cons ((b0 - 224) * 4096 + (b1 - 128) * 64 + (b2 - 128))%N)
             (utf8_decode rest).
Proof.
  intros H0 H1 H2 Hc Hs. rewrite utf8_decode_step. cbv zeta.
  unfold continuation.
  set (c := ((b0 - 224) * 4096 + (b1 - 128) * 64 + (b2 - 128))%N) in *.
  assert (G : negb ((55296 <=? c)%N && (c <=? 57343)%N) = true).
  { apply negb_true_iff, andb_false_iff.
    destruct Hs; [left|right]; apply N.leb_gt; assumption. }
  rewrite G. decided. reflexivity.
Qed.

Lemma utf8_decode_four (b0 b1 b2 b3 : N) (rest : list N) :
  (240 <= b0 < 248)%N -> (128 <= b1 < 192)%N -> (128 <= b2 < 192)%N ->
  (128 <= b3 < 192)%N ->
  (65536 <= (b0 - 240) * 262144 + (b1 - 128) * 4096 +
            (b2 - 128) * 64 + (b3 - 128) < 1114112)%N ->
  utf8_decode (b0 :: b1 :: b2 :: b3 :: rest) =
  option_map (cons ((b0 - 240) * 262144 + (b1 - 128) * 4096 +
                    (b2 - 128) * 64 + (b3 - 128))%N)
             (utf8_decode rest).
Proof.
  intros H0 H1 H2 H3 Hc. rewrite utf8_decode_step. cbv zeta.
  unfold continuation.
  set (c := ((b0 - 240) * 262144 + (b1 - 128) * 4096 +
             (b2 - 128) * 64 + (b3 - 128))%N) in *.
  decided. reflexivity.
Qed.

Lemma utf8_char_decode (c : N) (bs rest : list N) :
  utf8_char c = Some bs ->
  utf8_decode (bs ++ rest) = option_map (cons c) (utf8_decode rest).
Proof.
  unfold utf8_char.
  destruct (N.ltb_spec c 128) as [H1|H1].
  { intros E. replace bs with [c] by congruence.
    change ([c] ++ rest) with (c :: rest). rewrite utf8_decode_step.
    decided. reflexivity. }
  destruct (N.ltb_spec c 2048) as [H2|H2].
  { remember (192 + c / 64)%N as b0 eqn:E0.
    remember (128 + c mod 64)%N as b1 eqn:E1.
    intros E. replace bs with [b0; b1] by congruence.
    change ([b0; b1] ++ rest) with (b0 :: b1 :: rest).
    assert (Ec : ((b0 - 192) * 64 + (b1 - 128) = c)%N) by lia.
    rewrite utf8_decode_two by lia. rewrite Ec. reflexivity. }
  destruct (N.ltb_spec c 65536) as [H3|H3].
  { destruct ((55296 <=? c)%N && (c <=? 57343)%N) eqn:Sg; [discriminate|].
    apply andb_false_iff in Sg.
    assert (Sg' : (c < 55296 \/ 57343 < c)%N)
      by (destruct Sg as [Sg|Sg]; apply N.leb_gt in Sg; auto).
    remember (224 + c / 4096)%N as b0 eqn:E0.
    remember (128 + (c / 64) mod 64)%N as b1 eqn:E1.
    remember (128 + c mod 64)%N as b2 eqn:E2.
    intros E. replace bs with [b0; b1; b2] by congruence.
    change ([b0; b1; b2] ++ rest) with (b0 :: b1 :: b2 :: rest).
    assert (Ec : ((b0 - 224) * 4096 + (b1 - 128) * 64 + (b2 - 128) = c)%N)
      by lia.
    rewrite utf8_decode_three; rewrite ?Ec; try lia. reflexivity. }
  destruct (N.ltb_spec c 1114112) as [H4|H4]; [|discriminate].
  remember (240 + c / 262144)%N as b0 eqn:E0.
  remember (128 + (c / 4096) mod 64)%N as b1 eqn:E1.
  remember (128 + (c / 64) mod 64)%N as b2 eqn:E2.
  remember (128 + c mod 64)%N as b3 eqn:E3.
  intros E. replace bs with [b0; b1; b2; b3] by congruence.
  change ([b0; b1; b2; b3] ++ rest) with (b0 :: b1 :: b2 :: b3 :: rest).
  assert (Ec : ((b0 - 240) * 262144 + (b1 - 128) * 4096 +
                (b2 - 128) * 64 + (b3 - 128) = c)%N) by lia.
  rewrite utf8_decode_four; rewrite ?Ec; try lia. reflexivity.
Qed.

Ltac bytes_of E :=
  match type of E with
  | Some ?l = Some ?bs => replace bs with l by congruence
  end;
  unfold is_byte; repeat (apply Forall_cons; [lia|]); apply Forall_nil.

Lemma utf8_char_bytes (c : N) (bs : list N) :
  utf8_char c = Some bs -> Forall is_byte bs.
Proof.
  unfold utf8_char.
  destruct (N.ltb_spec c 128) as [H1|H1]; [intros E; bytes_of E|].
  destruct (N.ltb_spec c 2048) as [H2|H2]; [intros E; bytes_of E|].
  destruct (N.ltb_spec c 65536) as [H3|H3].
  { destruct ((55296 <=? c)%N && (c <=? 57343)%N); [discriminate|].
    intros E; bytes_of E. }
  destruct (N.ltb_spec c 1114112) as [H4|H4]; [|discriminate].
  intros E; bytes_of E.
Qed.

(** Decoding undoes the UTF-8 encoding, and the encoding is bytes. *)
Lemma utf8_round_trip (s : pystr) :
  forall bs, utf8_encode s = Some bs ->
             utf8_decode bs = Some s /\ Forall is_byte bs.
Proof.
  induction s as [|c s IH]; intros bs E; simpl in E.
  - injection E as <-. split; [reflexivity|constructor].
  - destruct (utf8_char c) as [b|] eqn:C; [|discriminate].
    destruct (utf8_encode s) as [bs'|]; [|discriminate].
    injection E as <-. destruct (IH bs' eq_refl) as [D B]. split.
    + rewrite (@utf8_char_decode c b bs' C), D. reflexivity.
    + apply Forall_app. split; [exact (@utf8_char_bytes c b C)|exact B].
Qed.

(** A string of code points has an encoding exactly when it holds no
    surrogate. *)
Lemma utf8_encode_defined (s : pystr) :
  Forall is_code_point s ->
  (utf8_encodable s = true <-> exists bs, utf8_encode s = Some bs).
Proof.
  unfold is_code_point, utf8_encodable.
  induction 1 as [|c s Hc Hs IH]; simpl.
  - split; eauto.
  - assert (C : negb ((55296 <=? c)%N && (c <=? 57343)%N) = true <->
                exists b, utf8_char c = Some b).
    { unfold utf8_char.
      destruct (N.leb_spec 55296 c) as [S1|S1];
        destruct (N.leb_spec c 57343) as [S2|S2]; cbn [andb negb].
      - replace (c <? 128)%N with false by (symmetry; apply N.ltb_ge; lia).
        replace (c <? 2048)%N with false by (symmetry; apply N.ltb_ge; lia).
        replace (c <? 65536)%N with true by (symmetry; apply N.ltb_lt; lia).
        split; [discriminate|intros [b E]; discriminate].
      - replace (c <? 1114112)%N with true by (symmetry; apply N.ltb_lt; lia).
        split; [intros _|reflexivity].
        destruct (c <? 128)%N; [eauto|]. destruct (c <? 2048)%N; [eauto|].
        destruct (c <? 65536)%N; eauto.
      - replace (c <? 1114112)%N with true by (symmetry; apply N.ltb_lt; lia).
        split; [intros _|reflexivity].
        destruct (c <? 128)%N; [eauto|]. destruct (c <? 2048)%N; [eauto|].
        destruct (c <? 65536)%N; eauto.
      - lia. }
    split.
    + intros E. apply andb_prop in E. destruct E as [E1 E2].
      apply C in E1. apply IH in E2.
      destruct E1 as [b ->]. destruct E2 as [bs ->]. eauto.
    + intros [bs E].
      destruct (utf8_char c) as [b|] eqn:Cc; [|discriminate].
      destruct (utf8_encode s) as [bs'|] eqn:Cs; [|discriminate].
      apply andb_true_intro. split; [apply C; eauto | apply IH; eauto].
Qed.

(** X20.  For every message text without a lone surrogate, the [raw]
    field is defined, and decoding it (URL-safe base64, then UTF-8) gives
    back exactly the message text; a text with a surrogate has no [raw]
    field, it fails with [UnicodeEncodeError]. *)
Theorem raw_field_round_trip (message : pystr) :
  Forall is_code_point message ->
  (utf8_encodable message = true ->
   exists raw message_bytes,
     encoded_message message = Ret raw /\
     urlsafe_b64decode raw = Some message_bytes /\
     utf8_decode message_bytes = Some message) /\
  (utf8_encodable message = false ->
   encoded_message message = Raise UnicodeEncodeError).
Proof.
  intros Hm. pose proof (utf8_encode_defined Hm) as D.
  unfold encoded_message. split.
  - intros E. apply D in E. destruct E as [bs E]. rewrite E.
    destruct (utf8_round_trip _ E) as [U B].
    exists (urlsafe_b64encode bs), bs.
    split; [reflexivity|]. split; [apply b64_round_trip; exact B|exact U].
  - intros E. destruct (utf8_encode message) as [bs|] eqn:U; [|reflexivity].
    assert (T : utf8_encodable message = true) by (apply D; eauto).
    congruence.
Qed.

Lemma raw_field_round_trip_witness :
  exists raw message_bytes,
    encoded_message (py "To: a@x.com" ++ [13; 10; 233; 8364; 128512]%N) =
      Ret raw /\
    urlsafe_b64decode raw = Some message_bytes /\
    utf8_decode message_bytes =
      Some (py "To: a@x.com" ++ [13; 10; 233; 8364; 128512]%N).
Proof.
  apply (proj1 (@raw_field_round_trip
                  (py "To: a@x.com" ++ [13; 10; 233; 8364; 128512]%N)
                  ltac:(repeat constructor))).
  reflexivity.
Defined.

(** X21.  Whenever the [raw] field is defined it consists of the
    characters A-Z, a-z, 0-9, [-], [_] and the padding [=] only, and its
    length is a multiple of four. *)
Theorem raw_field_is_url_safe (message raw : pystr) :
  encoded_message message = Ret raw ->
  forallb url_safe raw = true /\
  exists groups, List.length raw = (4 * groups)%nat.
Proof.
  unfold encoded_message.
  destruct (utf8_encode message) as [bs|] eqn:U; [|discriminate].
  intros E. injection E as <-.
  destruct (utf8_round_trip _ U) as [_ B].
  destruct (b64_shape B) as [S L].
  split; [exact S|]. eexists. exact L.
Qed.

Lemma raw_field_is_url_safe_witness :
  forallb url_safe (py "U2FsdcOpIQ==") = true /\
  exists groups, List.length (py "U2FsdcOpIQ==") = (4 * groups)%nat.
Proof.
  apply (@raw_field_is_url_safe (py "Salu" ++ [233; 33]%N)).
  reflexivity.
Defined.
